(** * web-assist-search: the matching pipeline of [server.js]

    A shallow embedding of the articulation extractor
    ([checkCourseArticulation]), of the asynchronous orchestrator
    ([processUniversityPDFs]) and of the in-memory job store with its
    HTTP handlers and retention sweep, followed by the properties of
    the specification that concern them.

    JavaScript strings are sequences of UTF-16 code units; they are
    modelled as lists of [N].  Indices are in [Z], as [indexOf] answers
    [-1] and the source does arithmetic on its answers. *)

From Stdlib Require Import String Ascii NArith ZArith List Lia DecimalString SpecFloat.
From stdpp Require Import gmap list.

Local Open Scope Z_scope.

(** ** JavaScript strings *)

Module Js.

Abbreviation JSString := (list N).

(** A source literal made of ASCII characters only. *)
Definition lit (s : string) : JSString :=
  map N_of_ascii (list_ascii_of_string s).

(** The character class [[\u0000-\u001F\u007F-\u009F]]. *)
Definition is_control (c : N) : bool :=
  ((c <=? 31) || ((127 <=? c) && (c <=? 159)))%N.

(** [s.replace(/[\u0000-\u001F\u007F-\u009F]/g, '')]: every code unit of
    the class is dropped. *)
Definition strip_control (s : JSString) : JSString :=
  List.filter (fun c => negb (is_control c)) s.

Fixpoint starts_with (pat s : JSString) : bool :=
  match pat, s with
  | [], _ => true
  | _ :: _, [] => false
  | p :: pat', c :: s' => (p =? c)%N && starts_with pat' s'
  end.

Fixpoint index_from (pat s : JSString) (i : Z) : Z :=
  if starts_with pat s then i
  else match s with
       | [] => -1
       | _ :: s' => index_from pat s' (i + 1)
       end.

(** [s.indexOf(pat)]: the least position where [pat] occurs, or [-1]. *)
Definition indexOf (s pat : JSString) : Z := index_from pat s 0.

(** [s.includes(pat)] *)
Definition includes (s pat : JSString) : bool :=
  negb (indexOf s pat =? -1).

Definition clamp (len z : Z) : Z := Z.min (Z.max z 0) len.

(** [s.substring(a, b)]: both ends are clamped to [0 .. s.length] and
    swapped when they come in the wrong order. *)
Definition substring (s : JSString) (a b : Z) : JSString :=
  let len := Z.of_nat (length s) in
  let fs := clamp len a in
  let fe := clamp len b in
  let from := Z.min fs fe in
  let to := Z.max fs fe in
  take (Z.to_nat (to - from)) (drop (Z.to_nat from) s).

(** [s.substring(a)] *)
Definition substring_from (s : JSString) (a : Z) : JSString :=
  substring s a (Z.of_nat (length s)).

(** WhiteSpace and LineTerminator code points of ECMAScript. *)
Definition is_space (c : N) : bool :=
  ((c =? 9) || (c =? 10) || (c =? 11) || (c =? 12) || (c =? 13)
   || (c =? 32) || (c =? 160) || (c =? 5760)
   || ((8192 <=? c) && (c <=? 8202))
   || (c =? 8232) || (c =? 8233) || (c =? 8239) || (c =? 8287)
   || (c =? 12288) || (c =? 65279))%N.

Fixpoint trim_start (s : JSString) : JSString :=
  match s with
  | c :: s' => if is_space c then trim_start s' else s
  | [] => []
  end.

Definition trim_end (s : JSString) : JSString :=
  rev (trim_start (rev s)).

(** [s.trim()] *)
Definition trim (s : JSString) : JSString := trim_end (trim_start s).

(** Truthiness of a string: only the empty string is falsy. *)
Definition truthy (s : JSString) : bool :=
  match s with [] => false | _ :: _ => true end.

(** [arr.some(p)] *)
Definition some {A} (p : A -> bool) (arr : list A) : bool := existsb p arr.

End Js.

Import Js.

(** ** The articulation extractor *)

(** The object returned by [checkCourseArticulation].  [articulatedCourse]
    is [null] or a string; [error] is only present on the object built by
    the [catch] branch. *)
Module CourseCheck.
Record t := {
  college : JSString;
  isArticulated : bool;
  articulatedCourse : option JSString;
  key : JSString;
  error : option JSString
}.
End CourseCheck.

(** The literal passed to [afterCourse.indexOf]: the two code units
    U+00E2 U+2020 that the source file holds between the quotes. *)
Definition arrow : JSString := [226%N; 8224%N].

Definition notArticulated : list JSString :=
  [lit "No Course Articulated"; lit "No Comparable Course"; lit "Course(s) Denied"].

(** Lines 180-190: the college name read off the [From:] line. *)
Definition extractCollege (cleanText : JSString) : JSString :=
  let fromIndex := indexOf cleanText (lit "From:") in
  if negb (fromIndex =? -1) then
    let afterFrom := substring_from cleanText (fromIndex + 6) in
    let yearIndex := indexOf afterFrom (lit "2") in
    if negb (yearIndex =? -1) then trim (substring afterFrom 0 (yearIndex - 1))
    else []
  else [].

(** Lines 174-237: the body of the [try] block once the PDF text is
    known. *)
Definition extract (text course key : JSString) : CourseCheck.t :=
  let cleanCourse := strip_control course in
  let cleanText := strip_control text in
  let college := extractCollege cleanText in
  let not_found :=
    {| CourseCheck.college := college;
       CourseCheck.isArticulated := false;
       CourseCheck.articulatedCourse := None;
       CourseCheck.key := key;
       CourseCheck.error := None |} in
  let searchPosition := indexOf cleanText cleanCourse in
  if negb (searchPosition =? -1) then
    let afterCourse :=
      substring_from cleanText (searchPosition + Z.of_nat (length cleanCourse)) in
    let arrowIndex := indexOf afterCourse arrow in
    if negb (arrowIndex =? -1) then
      let articulatedSection := substring afterCourse arrowIndex (arrowIndex + 30) in
      let isNotArticulated :=
        some (fun phrase => includes articulatedSection phrase) notArticulated in
      if negb isNotArticulated then
        {| CourseCheck.college := college;
           CourseCheck.isArticulated := true;
           CourseCheck.articulatedCourse := Some (trim articulatedSection);
           CourseCheck.key := key;
           CourseCheck.error := None |}
      else not_found
    else not_found
  else not_found.

(** ** Upstream data and the job record *)

Module NameEntry.
Record t := { name : JSString }.
End NameEntry.

(** An entry of [https://assist.org/api/institutions]. *)
Module Institution.
Record t := { id : Z; names : list NameEntry.t }.
End Institution.

(** An entry of [.../institutions/${universityId}/agreements]. *)
Module Agreement.
Record t := { institutionParentId : Z }.
End Agreement.

Module Report.
Record t := { label : JSString; key : JSString }.
End Report.

(** The body of [.../api/agreements?...&categoryCode=major]; [reports]
    may be missing, the source reads [majorData.reports || []]. *)
Module MajorData.
Record t := { reports : option (list Report.t) }.
End MajorData.

(** What [axios.get] resolves to. *)
Module Axios.
Record Response (A : Type) := { status : Z; data : A }.
Arguments status {A} _.
Arguments data {A} _.
End Axios.

(** What [PDFParser] resolves to. *)
Module Pdf.
Record t := { text : JSString }.
End Pdf.

Abbreviation Buffer := (list Byte.byte).

Inductive Status := processing | completed | failed.

(** A value of the [jobs] map.  The object literals of the source set
    [status], [progress], [applicableColleges] and [error] always, and
    [totalProcessed], [articulatedCount] and [summary] on completion only;
    [createdAt] is the property the hourly sweep reads. *)
Module Job.
Record t := {
  status : Status;
  progress : JSString;
  applicableColleges : list JSString;
  error : option JSString;
  totalProcessed : option nat;
  articulatedCount : option nat;
  summary : option JSString;
  createdAt : option Z
}.

Definition with_progress (job : t) (p : JSString) : t :=
  {| status := status job; progress := p;
     applicableColleges := applicableColleges job; error := error job;
     totalProcessed := totalProcessed job;
     articulatedCount := articulatedCount job;
     summary := summary job; createdAt := createdAt job |}.
End Job.

Abbreviation JobMap := (gmap JSString Job.t).

(** ** Asynchronous programs *)

(** A thrown value; the source only reads its [message]. *)
Record JsError := { message : JSString }.

(** How an awaited promise settles. *)
Inductive Outcome (A : Type) : Type :=
| Resolved (a : A)
| Rejected (e : JsError).
Arguments Resolved {A} _.
Arguments Rejected {A} _.

(** The promises the source awaits.  The four [axios.get] calls are told
    apart by the URL they build. *)
Inductive asyncE : Type -> Type :=
| GetInstitutions : asyncE (Axios.Response (list Institution.t))
| GetAgreements (universityId : Z) : asyncE (Axios.Response (list Agreement.t))
| GetMajors (universityId collegeId : Z) : asyncE (Axios.Response MajorData.t)
| GetArtifact (key : JSString) : asyncE (Axios.Response Buffer)
| PDFParser (pdfBuffer : Buffer) : asyncE Pdf.t.

(** The body of an [async function]: straight-line code on the [jobs] map
    between [await]s.  Logging is left out. *)
Inductive Prog (A : Type) : Type :=
| Ret (a : A)
| Throw (e : JsError)
| Await {X : Type} (e : asyncE X) (k : Outcome X -> Prog A)
| JobsGet (jobId : JSString) (k : option Job.t -> Prog A)
| JobsSet (jobId : JSString) (job : Job.t) (k : Prog A).
Arguments Ret {A} _.
Arguments Throw {A} _.
Arguments Await {A X} _ _.
Arguments JobsGet {A} _ _.
Arguments JobsSet {A} _ _ _.

Fixpoint bind {A B} (p : Prog A) (f : A -> Prog B) : Prog B :=
  match p with
  | Ret a => f a
  | Throw e => Throw e
  | Await e k => Await e (fun o => bind (k o) f)
  | JobsGet j k => JobsGet j (fun r => bind (k r) f)
  | JobsSet j job k => JobsSet j job (bind k f)
  end.

(** [try { p } catch (error) { h error }] *)
Fixpoint try_catch {A} (p : Prog A) (h : JsError -> Prog A) : Prog A :=
  match p with
  | Ret a => Ret a
  | Throw e => h e
  | Await e k => Await e (fun o => try_catch (k o) h)
  | JobsGet j k => JobsGet j (fun r => try_catch (k r) h)
  | JobsSet j job k => JobsSet j job (try_catch k h)
  end.

Notation "'let*' x ':=' p 'in' q" := (bind p (fun x => q))
  (at level 10, x name, p at level 100, q at level 200).
Notation "'run' p 'then' q" := (bind p (fun _ => q))
  (at level 10, p at level 100, q at level 200).

(** [await e]: a rejection is thrown at the [await]. *)
Definition await {X} (e : asyncE X) : Prog X :=
  Await e (fun o => match o with
                    | Resolved x => Ret x
                    | Rejected err => Throw err
                    end).

Definition jobs_set (jobId : JSString) (job : Job.t) : Prog unit :=
  JobsSet jobId job (Ret tt).

(** ** The orchestrator *)

(** Lines 255-261. *)
Definition updateJobProgress (jobId progress : JSString) : Prog unit :=
  JobsGet jobId (fun job =>
    match job with
    | Some job => jobs_set jobId (Job.with_progress job progress)
    | None => Ret tt
    end).

(** [`${n}`] for a non-negative integer. *)
Definition decimal (n : nat) : JSString :=
  lit (DecimalString.NilZero.string_of_uint (Nat.to_uint n)).

(** The message of the [TypeError] that V8 raises for
    [institution.names[0].name] when [names] is empty. *)
Definition undefined_name_error : JsError :=
  {| message := lit "Cannot read properties of undefined (reading 'name')" |}.

(** Lines 69-76: [universityId] starts as [null] and takes the [id] of the
    first institution whose [names[0].name] is [=== university]. *)
Fixpoint findUniversityId (institutions : list Institution.t)
    (university : JSString) : Prog (option Z) :=
  match institutions with
  | [] => Ret None
  | institution :: rest =>
      match Institution.names institution with
      | [] => Throw undefined_name_error
      | first :: _ =>
          let collegeName := NameEntry.name first in
          if bool_decide (collegeName = university)
          then Ret (Some (Institution.id institution))
          else findUniversityId rest university
      end
  end.

(** [!universityId]: [null] and the number [0] are falsy. *)
Definition falsy_id (universityId : option Z) : bool :=
  match universityId with
  | None => true
  | Some n => n =? 0
  end.

Definition not_found_error (university : JSString) : JsError :=
  {| message := lit "University " ++ [34%N] ++ university ++ [34%N] ++ lit " not found" |}.

(** Lines 169-248.  The function is [async]; the one promise it awaits
    is [PDFParser]'s.  Its caller awaits its result in turn (line 120):
    nothing touches the job map between the two, and the two are kept as
    one stop. *)
Definition checkCourseArticulation (pdfBuffer : Buffer) (course key : JSString)
    : Prog CourseCheck.t :=
  try_catch
    (let* data := await (PDFParser pdfBuffer) in
     Ret (extract (Pdf.text data) course key))
    (fun error =>
       Ret {| CourseCheck.college := [];
              CourseCheck.isArticulated := false;
              CourseCheck.articulatedCourse := None;
              CourseCheck.key := key;
              CourseCheck.error := Some (message error) |}).

(** Lines 107-134: the scan of [majorData.reports || []], left at the
    first entry whose label is [=== major]. *)
Fixpoint scanReports (reports : list Report.t) (major course : JSString)
    (applicableColleges : list JSString) : Prog (list JSString) :=
  match reports with
  | [] => Ret applicableColleges
  | majorEntry :: rest =>
      if bool_decide (Report.label majorEntry = major) then
        let key := Report.key majorEntry in
        let* pdfResponse := await (GetArtifact key) in
        if Axios.status pdfResponse =? 200 then
          let pdfBuffer := Axios.data pdfResponse in
          let* courseCheck := checkCourseArticulation pdfBuffer course key in
          if CourseCheck.isArticulated courseCheck
             && truthy (CourseCheck.college courseCheck)
          then Ret (applicableColleges ++ [CourseCheck.college courseCheck])
          else Ret applicableColleges
        else Ret applicableColleges
      else scanReports rest major course applicableColleges
  end.

(** Lines 101-138: one turn of the loop over [collegeIds], up to the
    [catch].  Nothing is pushed before a statement that can throw, so the
    array the [catch] leaves behind is the one the turn started with. *)
Definition processCollege (universityId : Z) (major course : JSString)
    (collegeId : Z) (applicableColleges : list JSString)
    : Prog (list JSString) :=
  try_catch
    (let* majorResponse := await (GetMajors universityId collegeId) in
     let majorData := Axios.data majorResponse in
     scanReports (default [] (MajorData.reports majorData)) major course
       applicableColleges)
    (fun error => Ret applicableColleges).

(** Lines 100-145. *)
Fixpoint processColleges (jobId : JSString) (universityId : Z)
    (major course : JSString) (total : nat) (collegeIds : list Z)
    (applicableColleges : list JSString) (processedCount : nat)
    : Prog (list JSString * nat) :=
  match collegeIds with
  | [] => Ret (applicableColleges, processedCount)
  | collegeId :: rest =>
      let* applicableColleges :=
        processCollege universityId major course collegeId applicableColleges in
      let processedCount := S processedCount in
      run updateJobProgress jobId
            (lit "Processed " ++ decimal processedCount ++ lit "/"
               ++ decimal total ++ lit " colleges") then
      processColleges jobId universityId major course total rest
        applicableColleges processedCount
  end.

Definition processing_job : Job.t :=
  {| Job.status := processing;
     Job.progress := lit "Fetching institutions...";
     Job.applicableColleges := [];
     Job.error := None;
     Job.totalProcessed := None;
     Job.articulatedCount := None;
     Job.summary := None;
     Job.createdAt := None |}.

Definition completed_job (applicableColleges : list JSString)
    (processedCount : nat) (course : JSString) : Job.t :=
  {| Job.status := completed;
     Job.progress := lit "Done";
     Job.applicableColleges := applicableColleges;
     Job.error := None;
     Job.totalProcessed := Some processedCount;
     Job.articulatedCount := Some (length applicableColleges);
     Job.summary :=
       Some (lit "Found " ++ decimal (length applicableColleges)
               ++ lit " colleges that articulate the course " ++ [34%N]
               ++ course ++ [34%N]);
     Job.createdAt := None |}.

Definition failed_job (error : JsError) : Job.t :=
  {| Job.status := failed;
     Job.progress := lit "Failed";
     Job.applicableColleges := [];
     Job.error := Some (message error);
     Job.totalProcessed := None;
     Job.articulatedCount := None;
     Job.summary := None;
     Job.createdAt := None |}.

(** Lines 52-166. *)
Definition processUniversityPDFs (jobId university major course : JSString)
    : Prog unit :=
  try_catch
    (run jobs_set jobId processing_job then
     let* institutionsResponse := await GetInstitutions in
     let institutions := Axios.data institutionsResponse in
     let* universityId := findUniversityId institutions university in
     if falsy_id universityId then Throw (not_found_error university)
     else
       let universityId := default 0 universityId in
       run updateJobProgress jobId (lit "Fetching agreements...") then
       let* agreementsResponse := await (GetAgreements universityId) in
       let agreementData := Axios.data agreementsResponse in
       let collegeIds := map Agreement.institutionParentId agreementData in
       run updateJobProgress jobId
             (lit "Processing " ++ decimal (length collegeIds)
                ++ lit " colleges...") then
       let* result :=
         processColleges jobId universityId major course (length collegeIds)
           collegeIds [] 0%nat in
       jobs_set jobId (completed_job (fst result) (snd result) course))
    (fun error => jobs_set jobId (failed_job error)).

(** ** Running a program to its end *)

(** The outside world settles every awaited promise; [W] is whatever it
    remembers between two of them, so that the same request may be
    answered differently the next time. *)
Definition World (W : Type) : Type := forall X, asyncE X -> W -> Outcome X * W.

Fixpoint exec {W A} (world : World W) (p : Prog A) (w : W) (jobs : JobMap)
    : Outcome A * W * JobMap :=
  match p with
  | Ret a => (Resolved a, w, jobs)
  | Throw e => (Rejected e, w, jobs)
  | Await e k => let '(o, w') := world _ e w in exec world (k o) w' jobs
  | JobsGet jobId k => exec world (k (jobs !! jobId)) w jobs
  | JobsSet jobId job k => exec world k w (<[jobId := job]> jobs)
  end.

(** ** The server: handlers, pending promises and the hourly sweep *)

(** Where an [async] body stands after running without interruption: it
    has settled, or it waits on a promise. *)
Inductive Suspension (A : Type) : Type :=
| Settled (o : Outcome A)
| Waiting {X : Type} (e : asyncE X) (k : Outcome X -> Prog A).
Arguments Settled {A} _.
Arguments Waiting {A X} _ _.

(** The code between two [await]s runs to the next [await] in one go;
    in particular the call of an [async] function runs, within its
    caller, up to the first [await] of its body. *)
Fixpoint segment {A} (p : Prog A) (jobs : JobMap) : Suspension A * JobMap :=
  match p with
  | Ret a => (Settled (Resolved a), jobs)
  | Throw e => (Settled (Rejected e), jobs)
  | Await e k => (Waiting e k, jobs)
  | JobsGet jobId k => segment (k (jobs !! jobId)) jobs
  | JobsSet jobId job k => segment k (<[jobId := job]> jobs)
  end.

(** A suspended activation of [processUniversityPDFs]: the [jobId] it was
    called with, the promise it waits on and what it does once the
    promise settles. *)
Record Task := {
  task_jobId : JSString;
  task_answer : Type;
  task_awaiting : asyncE task_answer;
  task_resume : Outcome task_answer -> Prog unit
}.

Record Server := { jobs : JobMap; pending : list Task }.

Definition suspend (jobId : JSString) (r : Suspension unit)
    (tasks : list Task) : list Task :=
  match r with
  | Settled _ => tasks
  | Waiting e k =>
      tasks ++ [{| task_jobId := jobId; task_awaiting := e; task_resume := k |}]
  end.

(** ** Requests *)

(** What [express.json()] can leave in [req.body]: nothing at all
    ([undefined]) or a parsed JSON document.  [undefined] is also what
    reading a property that is not there gives. *)
Module Value.

#[local] Set Warnings "-register-all".

Inductive t :=
| undefined
| null
| boolean (b : bool)
| number (x : spec_float)
| string (s : JSString)
| array (items : list t)
| object (fields : list (JSString * t)).

(** [ToBoolean], which [!v] negates. *)
Definition truthy (v : t) : bool :=
  match v with
  | undefined | null => false
  | boolean b => b
  | number (S754_zero _) | number S754_nan => false
  | number _ => true
  | string s => Js.truthy s
  | array _ | object _ => true
  end.

(** [JSON.parse] keeps the last of the members that share a name. *)
Definition member (key : JSString) (fields : list (JSString * t)) : t :=
  foldl (fun found field =>
           if bool_decide (fst field = key) then snd field else found)
        undefined fields.

(** [v[key]] for a [key] that no prototype defines and that is neither an
    index nor [length], on a [v] other than [undefined] and [null]. *)
Definition get (v : t) (key : JSString) : t :=
  match v with
  | object fields => member key fields
  | _ => undefined
  end.

End Value.

(** How lines 19-25 leave a request: the destructuring threw, the
    request was refused, or the handler goes on with the three
    properties. *)
Inductive Guard :=
| Raises
| Refuses
| Proceeds (university major course : Value.t).

(** Lines 19-25 on any [req.body]: destructuring [undefined] or [null]
    throws a [TypeError]; otherwise the three properties are read and
    tested. *)
Definition post_guard (body : Value.t) : Guard :=
  match body with
  | Value.undefined | Value.null => Raises
  | _ =>
      let university := Value.get body (lit "university") in
      let major := Value.get body (lit "major") in
      let course := Value.get body (lit "course") in
      if negb (Value.truthy university) || negb (Value.truthy major)
         || negb (Value.truthy course)
      then Refuses
      else Proceeds university major course
  end.

(** [req.body] of [POST /api/process-pdfs] when it is there and each of
    the three properties is missing or a string, which is what the rest
    of the handler and [processUniversityPDFs] take them to be; see
    [post_guard] for the other requests. *)
Record Body := {
  university : option JSString;
  major : option JSString;
  course : option JSString
}.

Definition given (v : option JSString) : bool :=
  match v with
  | Some s => truthy s
  | None => false
  end.

Inductive HttpResponse :=
| BadRequest
| Started (jobId : JSString)
| NotFound
| JobJson (job : Job.t).

(** Lines 17-37; [jobId] is what [generateJobId()] returned. *)
Definition post_process_pdfs (body : Body) (jobId : JSString) (s : Server)
    : Server * HttpResponse :=
  if negb (given (university body)) || negb (given (major body))
     || negb (given (course body))
  then (s, BadRequest)
  else
    let '(r, jobs') :=
      segment (processUniversityPDFs jobId (default [] (university body))
                 (default [] (major body)) (default [] (course body)))
              (jobs s) in
    ({| jobs := jobs'; pending := suspend jobId r (pending s) |}, Started jobId).

(** Lines 40-49. *)
Definition get_job (jobId : JSString) (s : Server) : HttpResponse :=
  match jobs s !! jobId with
  | None => NotFound
  | Some job => JobJson job
  end.

(** [job.createdAt && job.createdAt < oneHourAgo] *)
Definition expired (oneHourAgo : Z) (job : Job.t) : bool :=
  match Job.createdAt job with
  | Some t => negb (t =? 0) && (t <? oneHourAgo)
  | None => false
  end.

(** Lines 264-271, with [now] for [Date.now()]. *)
Definition cleanup (now : Z) (jobs : JobMap) : JobMap :=
  let oneHourAgo := now - 60 * 60 * 1000 in
  foldl (fun m entry =>
           if expired oneHourAgo (snd entry) then delete (fst entry) m else m)
        jobs (map_to_list jobs).

(** The [i]-th pending promise settles with [o]. *)
Definition settle (t : Task) (o : Outcome (task_answer t)) (i : nat)
    (s : Server) : Server :=
  let '(r, jobs') := segment (task_resume t o) (jobs s) in
  {| jobs := jobs'; pending := suspend (task_jobId t) r (delete i (pending s)) |}.

Inductive Event :=
| Post (body : Body) (jobId : JSString)
| Get (jobId : JSString)
| Settle (i : nat)
| Sweep (now : Z).

Inductive step : Server -> Event -> Server -> Prop :=
| step_post s body jobId :
    step s (Post body jobId) (fst (post_process_pdfs body jobId s))
| step_get s jobId :
    step s (Get jobId) s
| step_settle s i t o :
    pending s !! i = Some t ->
    step s (Settle i) (settle t o i s)
| step_sweep s now :
    step s (Sweep now) {| jobs := cleanup now (jobs s); pending := pending s |}.

Definition start : Server := {| jobs := ∅; pending := [] |}.

(** [reaches allowed s s']: the server gets from [s] to [s'] by events
    that are [allowed] when they take place. *)
Inductive reaches (allowed : Server -> Event -> Prop) : Server -> Server -> Prop :=
| reaches_refl s : reaches allowed s s
| reaches_step s s1 ev s2 :
    reaches allowed s s1 -> allowed s1 ev -> step s1 ev s2 ->
    reaches allowed s s2.

Definition reachable (allowed : Server -> Event -> Prop) (s : Server) : Prop :=
  reaches allowed start s.

Definition any_event (s : Server) (ev : Event) : Prop := True.

(** [generateJobId] never returns an identifier that is in use. *)
Definition fresh_ids (s : Server) (ev : Event) : Prop :=
  match ev with
  | Post body jobId =>
      given (university body) && given (major body) && given (course body) = true ->
      jobs s !! jobId = None
  | _ => True
  end.

(** ** Vocabulary of the properties *)

(** [pat] occurs in [s] at position [i]. *)
Definition occurs_at (pat s : JSString) (i : nat) : Prop :=
  exists pre post, s = pre ++ pat ++ post /\ length pre = i.

Definition occurs (pat s : JSString) : Prop := exists i, occurs_at pat s i.

(** [i] is the first position at which [pat] occurs in [s]. *)
Definition first_at (pat s : JSString) (i : nat) : Prop :=
  occurs_at pat s i /\ forall j, (j < i)%nat -> ~ occurs_at pat s j.

(** Document texts of the kind the specification's scenarios describe. *)
Definition sample_denied : JSString :=
  lit "From: Santa Monica College 2021-2022 ... CS 101 " ++ arrow
    ++ lit "No Course Articulated...".

Definition sample_accepted : JSString :=
  lit "From: Santa Monica College 2021-2022 ... CS 101 " ++ arrow
    ++ lit "Accepted as CS1...".

Definition sample_unnamed : JSString :=
  lit "Agreement ... CS 101 " ++ arrow ++ lit "Accepted as CS1...".

Definition sample_no_arrow : JSString :=
  lit "From: Santa Monica College 2021-2022 ... CS 101 is listed".

(** The scenario of the specification: one partner (id 5) with one report
    for the major [Computer Science] under the key [k1]; the directory and
    the text of the document vary. *)
Definition scenario (institutions : list Institution.t) (text : JSString)
    : World unit :=
  fun X e w =>
    match e in asyncE X return Outcome X * unit with
    | GetInstitutions =>
        (Resolved {| Axios.status := 200; Axios.data := institutions |}, tt)
    | GetAgreements _ =>
        (Resolved {| Axios.status := 200;
                     Axios.data := [{| Agreement.institutionParentId := 5 |}] |}, tt)
    | GetMajors _ _ =>
        (Resolved
           {| Axios.status := 200;
              Axios.data :=
                {| MajorData.reports :=
                     Some [{| Report.label := lit "Computer Science";
                              Report.key := lit "k1" |}] |} |}, tt)
    | GetArtifact _ =>
        (Resolved {| Axios.status := 200; Axios.data := [] |}, tt)
    | PDFParser _ => (Resolved {| Pdf.text := text |}, tt)
    end.

Definition ucla : Institution.t :=
  {| Institution.id := 1;
     Institution.names := [{| NameEntry.name := lit "UCLA" |}] |}.

Definition nameless : Institution.t :=
  {| Institution.id := 1; Institution.names := [] |}.

(** The report the scan of a partner's majors stops at: the first one
    whose label is the requested major. *)
Definition matching_report (major : JSString)
    (majors : Axios.Response MajorData.t) : option Report.t :=
  List.find (fun r => bool_decide (Report.label r = major))
    (default [] (MajorData.reports (Axios.data majors))).

(** No institution of the directory has [university] as its first name
    variant. *)
Definition no_entry_matches (institutions : list Institution.t)
    (university : JSString) : Prop :=
  forall inst first,
    In inst institutions ->
    head (Institution.names inst) = Some first ->
    NameEntry.name first <> university.

(** Whatever else the world answers, a job started for [university]
    against the directory [institutions] ends as a failed job whose
    message mentions [university] and whose list of colleges is empty. *)
Definition fails_not_found (institutions : list Institution.t)
    (university : JSString) : Prop :=
  forall W (world : World W) w w' jobs jobId major course status,
    world _ GetInstitutions w
      = (Resolved {| Axios.status := status; Axios.data := institutions |}, w') ->
    exists job,
      exec world (processUniversityPDFs jobId university major course) w jobs
        = (Resolved tt, w', <[jobId := job]> jobs)
      /\ Job.status job = failed
      /\ (exists msg, Job.error job = Some msg /\ occurs university msg)
      /\ Job.applicableColleges job = [].

(** The turn of partner [collegeId] goes all the way: its majors are
    listed, the major is among them, the document comes with status 200,
    its text is extracted and the extractor says [check], articulated. *)
Inductive partner_articulated {W} (world : World W) (universityId collegeId : Z)
    (major course : JSString) (w : W) : CourseCheck.t -> W -> Prop :=
| partner_articulated_intro majors w1 report pdf w2 data w3 :
    world _ (GetMajors universityId collegeId) w = (Resolved majors, w1) ->
    matching_report major majors = Some report ->
    world _ (GetArtifact (Report.key report)) w1 = (Resolved pdf, w2) ->
    Axios.status pdf = 200 ->
    world _ (PDFParser (Axios.data pdf)) w2 = (Resolved data, w3) ->
    CourseCheck.isArticulated (extract (Pdf.text data) course (Report.key report))
      = true ->
    partner_articulated world universityId collegeId major course w
      (extract (Pdf.text data) course (Report.key report)) w3.

(** The turn of partner [collegeId] fails somewhere; the last component
    is the state of the world when it does. *)
Inductive partner_fails {W} (world : World W) (universityId collegeId : Z)
    (major : JSString) (w : W) : W -> Prop :=
| fails_majors_request e w1 :
    world _ (GetMajors universityId collegeId) w = (Rejected e, w1) ->
    partner_fails world universityId collegeId major w w1
| fails_major_missing majors w1 :
    world _ (GetMajors universityId collegeId) w = (Resolved majors, w1) ->
    matching_report major majors = None ->
    partner_fails world universityId collegeId major w w1
| fails_artifact_request majors w1 report e w2 :
    world _ (GetMajors universityId collegeId) w = (Resolved majors, w1) ->
    matching_report major majors = Some report ->
    world _ (GetArtifact (Report.key report)) w1 = (Rejected e, w2) ->
    partner_fails world universityId collegeId major w w2
| fails_artifact_status majors w1 report pdf w2 :
    world _ (GetMajors universityId collegeId) w = (Resolved majors, w1) ->
    matching_report major majors = Some report ->
    world _ (GetArtifact (Report.key report)) w1 = (Resolved pdf, w2) ->
    Axios.status pdf <> 200 ->
    partner_fails world universityId collegeId major w w2
| fails_extraction majors w1 report pdf w2 e w3 :
    world _ (GetMajors universityId collegeId) w = (Resolved majors, w1) ->
    matching_report major majors = Some report ->
    world _ (GetArtifact (Report.key report)) w1 = (Resolved pdf, w2) ->
    Axios.status pdf = 200 ->
    world _ (PDFParser (Axios.data pdf)) w2 = (Rejected e, w3) ->
    partner_fails world universityId collegeId major w w3.

(** Two job maps hold the same identifiers with the same statuses. *)
Definition same_statuses (jobs jobs' : JobMap) : Prop :=
  forall jobId, Job.status <$> jobs' !! jobId = Job.status <$> jobs !! jobId.

(** A program keeps to a discipline on the job map: whenever what it
    reads under an identifier satisfies [reads], what it writes under an
    identifier satisfies [writes]. *)
Fixpoint obeys {A} (reads : JSString -> option Job.t -> Prop)
    (writes : JSString -> Job.t -> Prop) (p : Prog A) : Prop :=
  match p with
  | Ret _ | Throw _ => True
  | Await _ k => forall o, obeys reads writes (k o)
  | JobsGet jobId k => forall r, reads jobId r -> obeys reads writes (k r)
  | JobsSet jobId job k => writes jobId job /\ obeys reads writes k
  end.

(** No [createdAt] on a record. *)
Definition unstamped (r : option Job.t) : Prop :=
  forall job, r = Some job -> Job.createdAt job = None.

(** A record of a job in progress, and a record of a job that is over. *)
Definition live (job : Job.t) : Prop :=
  Job.status job = processing /\ Job.applicableColleges job = [].

Definition counted (job : Job.t) : Prop :=
  Job.status job = completed ->
  Job.articulatedCount job = Some (length (Job.applicableColleges job)).

Definition over (job : Job.t) : Prop :=
  Job.status job <> processing /\ counted job.

Definition reads_live (jobId j : JSString) (r : option Job.t) : Prop :=
  j = jobId -> forall job, r = Some job -> live job.

(** The life of the activation for [jobId]: it writes under [jobId]
    only, records of a job in progress, until it writes the record of a
    job that is over, and that is the last thing it does. *)
Fixpoint lifecycle {A} (jobId : JSString) (p : Prog A) : Prop :=
  match p with
  | Ret _ | Throw _ => True
  | Await _ k => forall o, lifecycle jobId (k o)
  | JobsGet j k => forall r, reads_live jobId j r -> lifecycle jobId (k r)
  | JobsSet j job k =>
      j = jobId
      /\ ((live job /\ lifecycle jobId k) \/ (over job /\ exists a, k = Ret a))
  end.

(** What one event may do to the record of one job: create it in
    progress; leave it alone; or, while it is in progress, replace it by a
    record that extends its list of colleges.  A record that is over stays
    as it is, and a completed record counts its colleges. *)
Definition job_step (before after : option Job.t) : Prop :=
  match before with
  | None => forall job', after = Some job' -> Job.status job' = processing
  | Some job =>
      exists job',
        after = Some job'
        /\ (Job.status job <> processing -> job' = job)
        /\ (Job.status job' <> Job.status job ->
            Job.status job = processing
            /\ (Job.status job' = completed \/ Job.status job' = failed))
        /\ Job.applicableColleges job `prefix_of` Job.applicableColleges job'
        /\ (Job.applicableColleges job' <> Job.applicableColleges job ->
            Job.status job = processing)
  end
  /\ (forall job', after = Some job' -> counted job').

(** Nothing in the server carries or will write a [createdAt]: no
    record of the map, and no pending activation. *)
Definition never_stamped (s : Server) : Prop :=
  (forall jobId, unstamped (jobs s !! jobId))
  /\ Forall (fun t =>
               forall o,
                 obeys (fun _ => unstamped)
                   (fun _ job => Job.createdAt job = None) (task_resume t o))
       (pending s).

Definition valid_body : Body :=
  {| university := Some (lit "UCLA");
     major := Some (lit "Computer Science");
     course := Some (lit "CS 101") |}.

(** A stretch of the activation for [jobId] during which the job stays
    in progress. *)
Definition quiet {A} (jobId : JSString) (p : Prog A) : Prop :=
  obeys (reads_live jobId) (fun j job => j = jobId /\ live job) p.

(** Every pending activation has the record of its job in the map, in
    progress, and keeps to the life of that job; no two of them are for
    the same job; and every completed record counts its colleges. *)
Definition orderly (s : Server) : Prop :=
  Forall (fun t =>
            (exists job, jobs s !! task_jobId t = Some job /\ live job)
            /\ forall o, lifecycle (task_jobId t) (task_resume t o))
    (pending s)
  /\ NoDup (task_jobId <$> pending s)
  /\ (forall jobId job, jobs s !! jobId = Some job -> counted job).

(** ** Vocabulary of the further properties *)

(** A world without memory: the same request is always answered the same
    way. *)
Record Upstream := {
  institutions_answer : Outcome (Axios.Response (list Institution.t));
  agreements_answer : Z -> Outcome (Axios.Response (list Agreement.t));
  majors_answer : Z -> Z -> Outcome (Axios.Response MajorData.t);
  artifact_answer : JSString -> Outcome (Axios.Response Buffer);
  parser_answer : Buffer -> Outcome Pdf.t
}.

Definition stateless (u : Upstream) : World unit :=
  fun X e w =>
    match e in asyncE X return Outcome X * unit with
    | GetInstitutions => (institutions_answer u, tt)
    | GetAgreements universityId => (agreements_answer u universityId, tt)
    | GetMajors universityId collegeId => (majors_answer u universityId collegeId, tt)
    | GetArtifact key => (artifact_answer u key, tt)
    | PDFParser pdfBuffer => (parser_answer u pdfBuffer, tt)
    end.

Definition network_error : JsError := {| message := lit "Network Error" |}.

(** Every request fails. *)
Definition offline : Upstream :=
  {| institutions_answer := Rejected network_error;
     agreements_answer := fun _ => Rejected network_error;
     majors_answer := fun _ _ => Rejected network_error;
     artifact_answer := fun _ => Rejected network_error;
     parser_answer := fun _ => Rejected network_error |}.

(** The directory [institutions] is served; every other request fails. *)
Definition directory_only (institutions : list Institution.t) : Upstream :=
  {| institutions_answer :=
       Resolved {| Axios.status := 200; Axios.data := institutions |};
     agreements_answer := fun _ => Rejected network_error;
     majors_answer := fun _ _ => Rejected network_error;
     artifact_answer := fun _ => Rejected network_error;
     parser_answer := fun _ => Rejected network_error |}.

(** The directory and the agreements are served, the latter listing the
    partners [collegeIds]; every other request fails. *)
Definition partners_down (institutions : list Institution.t)
    (collegeIds : list Z) : Upstream :=
  {| institutions_answer :=
       Resolved {| Axios.status := 200; Axios.data := institutions |};
     agreements_answer := fun _ =>
       Resolved {| Axios.status := 200;
                   Axios.data :=
                     map (fun collegeId =>
                            {| Agreement.institutionParentId := collegeId |})
                       collegeIds |};
     majors_answer := fun _ _ => Rejected network_error;
     artifact_answer := fun _ => Rejected network_error;
     parser_answer := fun _ => Rejected network_error |}.

Definition zero_id : Institution.t :=
  {| Institution.id := 0;
     Institution.names := [{| NameEntry.name := lit "UCLA" |}] |}.

(** A record as the sweep expects one: with a [createdAt]. *)
Definition stamped (createdAt : Z) : Job.t :=
  {| Job.status := completed;
     Job.progress := lit "Done";
     Job.applicableColleges := [];
     Job.error := None;
     Job.totalProcessed := Some 0%nat;
     Job.articulatedCount := Some 0%nat;
     Job.summary := None;
     Job.createdAt := Some createdAt |}.

(** The three shapes of record that the object literals of lines 55-60,
    148-156 and 159-164 give; [progress] is free. *)
Definition well_formed (job : Job.t) : Prop :=
  Job.createdAt job = None
  /\ match Job.status job with
     | processing =>
         Job.applicableColleges job = [] /\ Job.error job = None
         /\ Job.totalProcessed job = None /\ Job.articulatedCount job = None
         /\ Job.summary job = None
     | completed =>
         Job.error job = None
         /\ is_Some (Job.totalProcessed job)
         /\ Job.articulatedCount job = Some (length (Job.applicableColleges job))
         /\ is_Some (Job.summary job)
     | failed =>
         Job.applicableColleges job = [] /\ is_Some (Job.error job)
         /\ Job.totalProcessed job = None /\ Job.articulatedCount job = None
         /\ Job.summary job = None
     end.

(** Every record of the map is well formed, and every pending activation
    will only write well-formed records. *)
Definition well_kept (s : Server) : Prop :=
  (forall jobId job, jobs s !! jobId = Some job -> well_formed job)
  /\ Forall (fun t =>
               forall o,
                 obeys (fun _ r => forall job, r = Some job -> well_formed job)
                   (fun _ job => well_formed job) (task_resume t o))
       (pending s).

(** The value of a property of a [Body]. *)
Definition of_field (v : option JSString) : Value.t :=
  match v with
  | Some s => Value.string s
  | None => Value.undefined
  end.

(** [req.body] is there and its three properties are those of [b]. *)
Definition typed (body : Value.t) (b : Body) : Prop :=
  body <> Value.undefined /\ body <> Value.null
  /\ Value.get body (lit "university") = of_field (university b)
  /\ Value.get body (lit "major") = of_field (major b)
  /\ Value.get body (lit "course") = of_field (course b).

(** The falsy values: [undefined], [null], [false], [0] and [-0], [NaN]
    and the empty string. *)
Definition falsy (v : Value.t) : Prop :=
  v = Value.undefined \/ v = Value.null \/ v = Value.boolean false
  \/ (exists sign, v = Value.number (S754_zero sign))
  \/ v = Value.number S754_nan
  \/ v = Value.string [].

(** A body whose [major] is the number zero, and a body of strings that
    gives [course] twice. *)
Definition zero_major : Value.t :=
  Value.object [(lit "university", Value.string (lit "UCLA"));
                (lit "major", Value.number (S754_zero false));
                (lit "course", Value.string (lit "CS 101"))].

Definition valid_json : Value.t :=
  Value.object [(lit "course", Value.string (lit "CS 1"));
                (lit "university", Value.string (lit "UCLA"));
                (lit "major", Value.string (lit "Computer Science"));
                (lit "course", Value.string (lit "CS 101"))].

(** The job map when the loop over the partners begins (line 94): the
    record of the job is the initial one, with the number of partners in
    its progress text. *)
Definition at_loop_start (jobId : JSString) (partners : nat) (jobs : JobMap)
    : JobMap :=
  <[jobId := Job.with_progress processing_job
               (lit "Processing " ++ decimal partners ++ lit " colleges...")]>
    jobs.

(** Two partners, 5 and 7, each with one report for [Computer Science];
    the document of partner 5 has no [From:] line, that of partner 7
    has one. *)
Definition two_partners : Upstream :=
  {| institutions_answer :=
       Resolved {| Axios.status := 200; Axios.data := [ucla] |};
     agreements_answer := fun _ =>
       Resolved {| Axios.status := 200;
                   Axios.data := [{| Agreement.institutionParentId := 5 |};
                                  {| Agreement.institutionParentId := 7 |}] |};
     majors_answer := fun _ collegeId =>
       Resolved
         {| Axios.status := 200;
            Axios.data :=
              {| MajorData.reports :=
                   Some [{| Report.label := lit "Computer Science";
                            Report.key :=
                              if collegeId =? 5 then lit "k5" else lit "k7" |}] |} |};
     artifact_answer := fun key =>
       Resolved {| Axios.status := 200;
                   Axios.data :=
                     if bool_decide (key = lit "k5") then [Byte.x05]
                     else [Byte.x07] |};
     parser_answer := fun pdfBuffer =>
       Resolved {| Pdf.text :=
                     match pdfBuffer with
                     | [Byte.x05] => sample_unnamed
                     | _ => sample_accepted
                     end |} |}.

(** The [i]-th pending promise settles the way the upstream [u] answers
    the request it stands for. *)
Definition settle_with (u : Upstream) (i : nat) (s : Server) : Server :=
  match pending s !! i with
  | Some t => settle t (fst (stateless u _ (task_awaiting t) tt)) i s
  | None => s
  end.

(** * Properties *)

(** ** String primitives *)

Section StringFacts.

Lemma starts_with_prefix pat s :
  starts_with pat s = true <-> exists post, s = pat ++ post.
Proof.
  revert s; induction pat as [|p pat IH]; intros s; simpl.
  - split; [intros _; exists s; reflexivity | reflexivity].
  - destruct s as [|c s].
    + split; [discriminate | intros [post H]; discriminate].
    + rewrite andb_true_iff, N.eqb_eq, IH. split.
      * intros [-> [post ->]]. exists post. reflexivity.
      * intros [post H]. injection H as -> ->. eauto.
Qed.

Lemma starts_with_occurs_at pat s :
  starts_with pat s = true <-> occurs_at pat s 0.
Proof.
  rewrite starts_with_prefix. unfold occurs_at. split.
  - intros [post ->]. exists [], post. split; reflexivity.
  - intros (pre & post & -> & Hlen). destruct pre; [|discriminate].
    exists post. reflexivity.
Qed.

Lemma occurs_at_cons pat c s i :
  occurs_at pat (c :: s) (S i) <-> occurs_at pat s i.
Proof.
  unfold occurs_at. split.
  - intros (pre & post & H & Hlen). destruct pre as [|c' pre]; [discriminate|].
    injection H as -> ->. exists pre, post. split; [reflexivity|].
    simpl in Hlen. lia.
  - intros (pre & post & -> & Hlen). exists (c :: pre), post.
    split; [reflexivity | simpl; lia].
Qed.

Lemma occurs_at_nil pat i : occurs_at pat [] i -> i = 0%nat /\ pat = [].
Proof.
  intros (pre & post & H & Hlen).
  destruct pre; [|discriminate]. destruct pat; [|discriminate].
  split; [symmetry; exact Hlen | reflexivity].
Qed.

Lemma occurs_at_bound pat s i :
  occurs_at pat s i -> (i + length pat <= length s)%nat.
Proof.
  intros (pre & post & -> & <-). rewrite !length_app. lia.
Qed.

Lemma occurs_at_drop pat s i :
  occurs_at pat s i -> exists post, drop i s = pat ++ post.
Proof.
  intros (pre & post & -> & <-). exists post.
  rewrite drop_app_length. reflexivity.
Qed.

(** [index_from] finds the first occurrence, counted from [i], or
    answers [-1] when there is none. *)
Lemma index_from_spec pat s i :
  0 <= i ->
  (index_from pat s i = -1 /\ ~ occurs pat s)
  \/ (exists n, index_from pat s i = i + Z.of_nat n /\ first_at pat s n).
Proof.
  revert i; induction s as [|c s IH]; intros i Hi; simpl.
  - destruct (starts_with pat []) eqn:E.
    + right. exists 0%nat. split; [lia|]. split.
      * apply starts_with_occurs_at; exact E.
      * intros j Hj; lia.
    + left. split; [reflexivity|]. intros [j Hj].
      destruct (occurs_at_nil _ _ Hj) as [-> ->]. discriminate.
  - destruct (starts_with pat (c :: s)) eqn:E.
    + right. exists 0%nat. split; [lia|]. split.
      * apply starts_with_occurs_at; exact E.
      * intros j Hj; lia.
    + destruct (IH (i + 1) ltac:(lia)) as [[H1 H2] | (n & H1 & H2 & H3)].
      * left. split; [exact H1|]. intros [[|j] Hj].
        -- apply starts_with_occurs_at in Hj. congruence.
        -- apply H2. exists j. apply occurs_at_cons in Hj. exact Hj.
      * right. exists (S n). split; [lia|]. split.
        -- apply occurs_at_cons. exact H2.
        -- intros [|j] Hj.
           ++ intros Hocc. apply starts_with_occurs_at in Hocc. congruence.
           ++ rewrite occurs_at_cons. apply H3. lia.
Qed.

Lemma first_at_unique pat s i j : first_at pat s i -> first_at pat s j -> i = j.
Proof.
  intros [Hi Hi'] [Hj Hj'].
  destruct (Nat.lt_trichotomy i j) as [H | [H | H]]; [|exact H|].
  - exfalso. exact (Hj' i H Hi).
  - exfalso. exact (Hi' j H Hj).
Qed.

Lemma indexOf_absent s pat : ~ occurs pat s -> indexOf s pat = -1.
Proof.
  intros Hno. unfold indexOf.
  destruct (index_from_spec pat s 0 ltac:(lia)) as [[H _] | (n & _ & H & _)].
  - exact H.
  - exfalso. apply Hno. exists n. exact H.
Qed.

Lemma indexOf_first s pat i : first_at pat s i -> indexOf s pat = Z.of_nat i.
Proof.
  intros Hi. unfold indexOf.
  destruct (index_from_spec pat s 0 ltac:(lia)) as [[_ H] | (n & H & Hn)].
  - exfalso. apply H. exists i. apply Hi.
  - rewrite H. rewrite (first_at_unique _ _ _ _ Hi Hn). lia.
Qed.

Lemma includes_occurs s pat : includes s pat = true <-> occurs pat s.
Proof.
  unfold includes, indexOf.
  destruct (index_from_spec pat s 0 ltac:(lia)) as [[H Hno] | (n & H & Hn)];
    rewrite H.
  - simpl. split; [discriminate | intros Ho; exfalso; exact (Hno Ho)].
  - replace (0 + Z.of_nat n =? -1) with false by (symmetry; apply Z.eqb_neq; lia).
    split; [intros _; exists n; apply Hn | reflexivity].
Qed.

Lemma substring_spec (s : JSString) a b :
  0 <= a -> a <= b ->
  substring s a b = take (Z.to_nat (b - a)) (drop (Z.to_nat a) s).
Proof.
  intros Ha Hab. unfold substring, clamp.
  set (len := Z.of_nat (length s)).
  destruct (Z_le_gt_dec a len) as [Hal | Hal].
  - destruct (Z_le_gt_dec b len) as [Hbl | Hbl].
    + replace (Z.min (Z.max a 0) len) with a by lia.
      replace (Z.min (Z.max b 0) len) with b by lia.
      replace (Z.min a b) with a by lia.
      replace (Z.max a b) with b by lia. reflexivity.
    + replace (Z.min (Z.max a 0) len) with a by lia.
      replace (Z.min (Z.max b 0) len) with len by lia.
      replace (Z.min a len) with a by lia.
      replace (Z.max a len) with len by lia.
      rewrite !take_ge; [reflexivity | |]; rewrite length_drop; lia.
  - replace (Z.min (Z.max a 0) len) with len by lia.
    replace (Z.min (Z.max b 0) len) with len by lia.
    replace (Z.min len len) with len by lia.
    replace (Z.max len len) with len by lia.
    rewrite !drop_ge by lia. rewrite !take_nil. reflexivity.
Qed.

Lemma substring_from_spec (s : JSString) a :
  0 <= a -> substring_from s a = drop (Z.to_nat a) s.
Proof.
  intros Ha. unfold substring_from.
  destruct (Z_le_gt_dec a (Z.of_nat (length s))) as [H | H].
  - rewrite substring_spec by lia. apply take_ge. rewrite length_drop. lia.
  - unfold substring, clamp.
    replace (Z.min (Z.max a 0) (Z.of_nat (length s))) with (Z.of_nat (length s)) by lia.
    replace (Z.min (Z.max (Z.of_nat (length s)) 0) (Z.of_nat (length s)))
      with (Z.of_nat (length s)) by lia.
    rewrite Z.min_id, Z.max_id, Z.sub_diag. simpl.
    rewrite !drop_ge by lia. reflexivity.
Qed.

(** [substring(0, b)] with [b] possibly negative, as in
    [afterFrom.substring(0, yearIndex - 1)]. *)
Lemma substring_zero (s : JSString) b :
  substring s 0 b = take (Z.to_nat b) s.
Proof.
  destruct (Z_le_gt_dec 0 b) as [H | H].
  - rewrite substring_spec by lia. rewrite Z.sub_0_r. reflexivity.
  - unfold substring, clamp.
    replace (Z.to_nat b) with 0%nat by lia.
    replace (Z.min (Z.max b 0) (Z.of_nat (length s))) with 0 by lia.
    replace (Z.min (Z.max 0 0) (Z.of_nat (length s))) with 0 by lia.
    reflexivity.
Qed.

End StringFacts.

Section TrimFacts.

Lemma trim_start_split s :
  exists l, s = l ++ trim_start s /\ forallb is_space l = true.
Proof.
  induction s as [|c s (l & Hs & Hl)]; simpl.
  - exists []. split; reflexivity.
  - destruct (is_space c) eqn:E.
    + exists (c :: l). simpl. rewrite E, Hl. split; [f_equal; exact Hs | reflexivity].
    + exists []. split; reflexivity.
Qed.

Lemma trim_start_head s c t : trim_start s = c :: t -> is_space c = false.
Proof.
  induction s as [|d s IH]; simpl; [discriminate|].
  destruct (is_space d) eqn:E; [exact IH|].
  intros H; injection H as -> _. exact E.
Qed.

Lemma trim_start_snoc s c :
  is_space c = false -> exists x, trim_start (s ++ [c]) = x ++ [c].
Proof.
  intros Hc. induction s as [|d s (x & IH)]; simpl.
  - rewrite Hc. exists []. reflexivity.
  - destruct (is_space d).
    + exists x. exact IH.
    + exists (d :: s). reflexivity.
Qed.

(** [trim] removes a run of white space at each end, and what it leaves
    neither starts nor ends with white space. *)
Lemma trim_spec s :
  exists l r,
    s = l ++ trim s ++ r
    /\ forallb is_space l = true /\ forallb is_space r = true
    /\ (forall c t, trim s = c :: t -> is_space c = false)
    /\ (forall t c, trim s = t ++ [c] -> is_space c = false).
Proof.
  unfold trim, trim_end.
  destruct (trim_start_split s) as (l & Hs & Hl).
  destruct (trim_start_split (rev (trim_start s))) as (r & Hr & Hrs).
  exists l, (rev r). split; [|split; [exact Hl | split; [|split]]].
  - rewrite Hs at 1. f_equal.
    rewrite <- (rev_involutive (trim_start s)) at 1.
    rewrite Hr at 1. rewrite rev_app_distr. reflexivity.
  - rewrite forallb_forall in *. intros c Hc. apply Hrs.
    apply in_rev. exact Hc.
  - intros c t H.
    destruct (trim_start s) as [|d u] eqn:E; [discriminate|].
    pose proof (trim_start_head _ _ _ E) as Hd.
    simpl in H. destruct (trim_start_snoc (rev u) d Hd) as (x & Hx).
    rewrite Hx, rev_app_distr in H. simpl in H. injection H as <- _. exact Hd.
  - intros t c H.
    apply (f_equal (@rev N)) in H. rewrite rev_involutive, rev_app_distr in H.
    simpl in H. exact (trim_start_head _ _ _ H).
Qed.

End TrimFacts.

(** ** The articulation extractor *)

Section Extractor.

Variables (text course key : JSString).

Lemma first_at_indexOf s pat i : indexOf s pat = Z.of_nat i -> first_at pat s i.
Proof.
  unfold indexOf. intros H.
  destruct (index_from_spec pat s 0 ltac:(lia)) as [[H' _] | (n & H' & Hn)].
  - lia.
  - replace i with n by lia. exact Hn.
Qed.

Lemma absent_indexOf s pat : indexOf s pat = -1 -> ~ occurs pat s.
Proof.
  unfold indexOf. intros H.
  destruct (index_from_spec pat s 0 ltac:(lia)) as [[_ H'] | (n & H' & Hn)].
  - exact H'.
  - lia.
Qed.

Lemma strip_control_clean c : In c (strip_control text) -> is_control c = false.
Proof.
  unfold strip_control. rewrite filter_In. intros [_ H].
  apply negb_true_iff. exact H.
Qed.

Lemma extract_course_absent :
  ~ occurs (strip_control course) (strip_control text) ->
  extract text course key =
    {| CourseCheck.college := extractCollege (strip_control text);
       CourseCheck.isArticulated := false;
       CourseCheck.articulatedCourse := None;
       CourseCheck.key := key;
       CourseCheck.error := None |}.
Proof.
  intros H. unfold extract. rewrite (indexOf_absent _ _ H). reflexivity.
Qed.

Lemma extract_course_found i :
  first_at (strip_control course) (strip_control text) i ->
  let afterCourse := drop (i + length (strip_control course)) (strip_control text) in
  extract text course key =
    let not_found :=
      {| CourseCheck.college := extractCollege (strip_control text);
         CourseCheck.isArticulated := false;
         CourseCheck.articulatedCourse := None;
         CourseCheck.key := key;
         CourseCheck.error := None |} in
    let arrowIndex := indexOf afterCourse arrow in
    if negb (arrowIndex =? -1) then
      let articulatedSection := substring afterCourse arrowIndex (arrowIndex + 30) in
      if negb (some (fun phrase => includes articulatedSection phrase) notArticulated)
      then {| CourseCheck.college := extractCollege (strip_control text);
              CourseCheck.isArticulated := true;
              CourseCheck.articulatedCourse := Some (trim articulatedSection);
              CourseCheck.key := key;
              CourseCheck.error := None |}
      else not_found
    else not_found.
Proof.
  intros H afterCourse. unfold extract. rewrite (indexOf_first _ _ _ H).
  replace (Z.of_nat i =? -1) with false by (symmetry; apply Z.eqb_neq; lia).
  cbv zeta. simpl negb. cbv iota.
  rewrite substring_from_spec by lia.
  replace (Z.to_nat (Z.of_nat i + Z.of_nat (length (strip_control course))))
    with (i + length (strip_control course))%nat by lia.
  reflexivity.
Qed.

End Extractor.

Lemma exec_checkCourseArticulation {W} (world : World W) w jobs pdfBuffer course key :
  exec world (checkCourseArticulation pdfBuffer course key) w jobs =
    match world _ (PDFParser pdfBuffer) w with
    | (Resolved data, w') => (Resolved (extract (Pdf.text data) course key), w', jobs)
    | (Rejected error, w') =>
        (Resolved {| CourseCheck.college := [];
                     CourseCheck.isArticulated := false;
                     CourseCheck.articulatedCourse := None;
                     CourseCheck.key := key;
                     CourseCheck.error := Some (message error) |}, w', jobs)
    end.
Proof.
  unfold checkCourseArticulation, await. simpl.
  destruct (world Pdf.t (PDFParser pdfBuffer) w) as [[data | error] w']; reflexivity.
Qed.

(** C3. When the course code, stripped of control characters, occurs
    nowhere in the stripped document text, [checkCourseArticulation]
    resolves (it does not take its [catch] branch) with
    [isArticulated = false], [articulatedCourse = null] and no [error]. *)
Theorem extract_absent_course_not_articulated
    {W} (world : World W) w w' jobs pdfBuffer data course key :
  world _ (PDFParser pdfBuffer) w = (Resolved data, w') ->
  ~ occurs (strip_control course) (strip_control (Pdf.text data)) ->
  exec world (checkCourseArticulation pdfBuffer course key) w jobs
    = (Resolved (extract (Pdf.text data) course key), w', jobs)
  /\ CourseCheck.isArticulated (extract (Pdf.text data) course key) = false
  /\ CourseCheck.articulatedCourse (extract (Pdf.text data) course key) = None
  /\ CourseCheck.error (extract (Pdf.text data) course key) = None.
Proof.
  intros Hparse Habsent.
  rewrite exec_checkCourseArticulation, Hparse.
  rewrite (extract_course_absent _ _ key Habsent).
  repeat split.
Qed.

(** C4. When the course code occurs, first at position [i], and the
    arrow token occurs nowhere in the text that follows that occurrence,
    the verdict is [isArticulated = false]. *)
Theorem extract_no_arrow_not_articulated text course key i :
  first_at (strip_control course) (strip_control text) i ->
  ~ occurs arrow
      (drop (i + length (strip_control course)) (strip_control text)) ->
  CourseCheck.isArticulated (extract text course key) = false.
Proof.
  intros Hfound Hno.
  rewrite (extract_course_found _ _ key i Hfound). cbv zeta.
  rewrite (indexOf_absent _ _ Hno). reflexivity.
Qed.

(** C5. When the course code is found and the arrow token follows it,
    first at position [a] of the rest of the text, the window is the 30
    code units from [a] on (fewer when the text ends before).  If one of
    the three negative phrases occurs in the window the verdict is
    [isArticulated = false]; if none does it is [isArticulated = true]
    and [articulatedCourse] is the trimmed window. *)
Theorem extract_window_verdict text course key i a :
  let afterCourse :=
    drop (i + length (strip_control course)) (strip_control text) in
  let window := take 30 (drop a afterCourse) in
  let phrases :=
    [lit "No Course Articulated"; lit "No Comparable Course"; lit "Course(s) Denied"] in
  first_at (strip_control course) (strip_control text) i ->
  first_at arrow afterCourse a ->
  ((exists phrase, In phrase phrases /\ occurs phrase window) ->
   CourseCheck.isArticulated (extract text course key) = false)
  /\ ((forall phrase, In phrase phrases -> ~ occurs phrase window) ->
      CourseCheck.isArticulated (extract text course key) = true
      /\ CourseCheck.articulatedCourse (extract text course key)
         = Some (trim window)).
Proof.
  intros afterCourse window phrases Hfound Harrow.
  rewrite (extract_course_found _ _ key i Hfound). cbv zeta.
  fold afterCourse. rewrite (indexOf_first _ _ _ Harrow).
  replace (Z.of_nat a =? -1) with false by (symmetry; apply Z.eqb_neq; lia).
  simpl negb. cbv iota.
  rewrite substring_spec by lia.
  replace (Z.to_nat (Z.of_nat a + 30 - Z.of_nat a)) with 30%nat by lia.
  rewrite Nat2Z.id. fold window.
  match goal with |- context [negb ?b] => destruct b eqn:E end;
    match type of E with _ = ?v =>
      change (some (fun phrase => includes window phrase) notArticulated = v) in E
    end.
  - split; [reflexivity|]. intros Hnone. exfalso.
    apply existsb_exists in E. destruct E as (phrase & Hin & Hinc).
    apply (Hnone phrase Hin). apply includes_occurs. exact Hinc.
  - split; [|split; reflexivity]. intros (phrase & Hin & Hocc). exfalso.
    assert (some (fun phrase => includes window phrase) notArticulated = true) as E'.
    { apply existsb_exists. exists phrase. split; [exact Hin|].
      apply includes_occurs. exact Hocc. }
    congruence.
Qed.

(** C6. The institution name.  Without [From:] in the stripped text it
    is empty.  With [From:], first at position [i], the rest starts 6
    code units after [i]; if no ['2'] occurs in the rest the name is
    empty, and if the first ['2'] of the rest is at position [y] the
    name is the rest cut one code unit before [y], trimmed. *)
Theorem extract_institution_name text course key :
  let cleanText := strip_control text in
  let name := CourseCheck.college (extract text course key) in
  (~ occurs (lit "From:") cleanText -> name = [])
  /\ (forall i,
        first_at (lit "From:") cleanText i ->
        let afterFrom := drop (i + 6) cleanText in
        (~ occurs (lit "2") afterFrom -> name = [])
        /\ (forall y, first_at (lit "2") afterFrom y ->
                      name = trim (take (y - 1) afterFrom))).
Proof.
  intros cleanText name.
  assert (name = extractCollege cleanText) as ->.
  { unfold name, extract. fold cleanText.
    repeat match goal with |- context [if ?b then _ else _] => destruct b end;
      reflexivity. }
  unfold extractCollege. split.
  - intros H. rewrite (indexOf_absent _ _ H). reflexivity.
  - intros i Hi. cbv zeta. rewrite (indexOf_first _ _ _ Hi).
    replace (Z.of_nat i =? -1) with false by (symmetry; apply Z.eqb_neq; lia).
    simpl negb. cbv iota.
    rewrite substring_from_spec by lia.
    replace (Z.to_nat (Z.of_nat i + 6)) with (i + 6)%nat by lia.
    split.
    + intros H. rewrite (indexOf_absent _ _ H). reflexivity.
    + intros y Hy. rewrite (indexOf_first _ _ _ Hy).
      replace (Z.of_nat y =? -1) with false by (symmetry; apply Z.eqb_neq; lia).
      simpl negb. cbv iota. rewrite substring_zero.
      replace (Z.to_nat (Z.of_nat y - 1)) with (y - 1)%nat by lia.
      reflexivity.
Qed.

Lemma extract_absent_course_not_articulated_witness :
  let data := {| Pdf.text := sample_accepted |} in
  let check := extract sample_accepted (lit "MATH 1A") (lit "k1") in
  scenario [ucla] sample_accepted _ (PDFParser []) tt = (Resolved data, tt)
  /\ ~ occurs (strip_control (lit "MATH 1A")) (strip_control sample_accepted)
  /\ exec (scenario [ucla] sample_accepted)
       (checkCourseArticulation [] (lit "MATH 1A") (lit "k1")) tt ∅
     = (Resolved check, tt, ∅)
  /\ CourseCheck.isArticulated check = false
  /\ CourseCheck.articulatedCourse check = None
  /\ CourseCheck.error check = None.
Proof.
  intros data check.
  assert (~ occurs (strip_control (lit "MATH 1A")) (strip_control sample_accepted))
    as Habsent by (apply absent_indexOf; reflexivity).
  split; [reflexivity|]. split; [exact Habsent|].
  exact (extract_absent_course_not_articulated
           (scenario [ucla] sample_accepted) tt tt ∅ [] data
           (lit "MATH 1A") (lit "k1") eq_refl Habsent).
Defined.

Lemma extract_no_arrow_not_articulated_witness :
  first_at (strip_control (lit "CS 101")) (strip_control sample_no_arrow) 41
  /\ ~ occurs arrow
         (drop (41 + length (strip_control (lit "CS 101")))
            (strip_control sample_no_arrow))
  /\ CourseCheck.isArticulated (extract sample_no_arrow (lit "CS 101") (lit "k1"))
     = false.
Proof.
  assert (first_at (strip_control (lit "CS 101")) (strip_control sample_no_arrow) 41)
    as Hfound by (apply first_at_indexOf; reflexivity).
  assert (~ occurs arrow
            (drop (41 + length (strip_control (lit "CS 101")))
               (strip_control sample_no_arrow)))
    as Hno by (apply absent_indexOf; reflexivity).
  split; [exact Hfound|]. split; [exact Hno|].
  exact (extract_no_arrow_not_articulated sample_no_arrow (lit "CS 101") (lit "k1")
           41 Hfound Hno).
Defined.

Lemma extract_window_verdict_witness :
  first_at (strip_control (lit "CS 101")) (strip_control sample_accepted) 41
  /\ first_at arrow
       (drop (41 + length (strip_control (lit "CS 101")))
          (strip_control sample_accepted)) 1
  /\ CourseCheck.isArticulated (extract sample_accepted (lit "CS 101") (lit "k1"))
     = true
  /\ CourseCheck.articulatedCourse (extract sample_accepted (lit "CS 101") (lit "k1"))
     = Some (arrow ++ lit "Accepted as CS1...").
Proof.
  assert (first_at (strip_control (lit "CS 101")) (strip_control sample_accepted) 41)
    as Hfound by (apply first_at_indexOf; reflexivity).
  assert (first_at arrow
            (drop (41 + length (strip_control (lit "CS 101")))
               (strip_control sample_accepted)) 1)
    as Harrow by (apply first_at_indexOf; reflexivity).
  split; [exact Hfound|]. split; [exact Harrow|].
  apply (extract_window_verdict sample_accepted (lit "CS 101") (lit "k1")
           41 1 Hfound Harrow).
  intros phrase Hin. apply absent_indexOf.
  destruct Hin as [<- | [<- | [<- | []]]]; reflexivity.
Defined.

Lemma extract_institution_name_witness :
  first_at (lit "From:") (strip_control sample_accepted) 0
  /\ first_at (lit "2") (drop (0 + 6) (strip_control sample_accepted)) 21
  /\ CourseCheck.college (extract sample_accepted (lit "CS 101") (lit "k1"))
     = lit "Santa Monica College".
Proof.
  assert (first_at (lit "From:") (strip_control sample_accepted) 0)
    as Hfrom by (apply first_at_indexOf; reflexivity).
  assert (first_at (lit "2") (drop (0 + 6) (strip_control sample_accepted)) 21)
    as Hyear by (apply first_at_indexOf; reflexivity).
  split; [exact Hfrom|]. split; [exact Hyear|].
  exact (proj2 (proj2 (extract_institution_name sample_accepted (lit "CS 101")
                         (lit "k1")) 0%nat Hfrom) 21%nat Hyear).
Defined.

(** ** Programs run to their end *)

Section Exec.

Context {W : Type} (world : World W).

Lemma exec_bind {A B} (p : Prog A) (f : A -> Prog B) w jobs :
  exec world (bind p f) w jobs =
    match exec world p w jobs with
    | (Resolved a, w', jobs') => exec world (f a) w' jobs'
    | (Rejected e, w', jobs') => (Rejected e, w', jobs')
    end.
Proof.
  revert w jobs; induction p as [a | e | X e k IH | j k IH | j job k IH];
    intros w jobs; simpl; try reflexivity.
  - destruct (world X e w) as [o w']. apply IH.
  - apply IH.
  - apply IH.
Qed.

Lemma exec_try_catch {A} (p : Prog A) (h : JsError -> Prog A) w jobs :
  exec world (try_catch p h) w jobs =
    match exec world p w jobs with
    | (Resolved a, w', jobs') => (Resolved a, w', jobs')
    | (Rejected e, w', jobs') => exec world (h e) w' jobs'
    end.
Proof.
  revert w jobs; induction p as [a | e | X e k IH | j k IH | j job k IH];
    intros w jobs; simpl; try reflexivity.
  - destruct (world X e w) as [o w']. apply IH.
  - apply IH.
  - apply IH.
Qed.

Lemma exec_await {X} (e : asyncE X) w jobs :
  exec world (await e) w jobs =
    match world X e w with
    | (Resolved x, w') => (Resolved x, w', jobs)
    | (Rejected err, w') => (Rejected err, w', jobs)
    end.
Proof.
  unfold await. simpl. destruct (world X e w) as [[x | err] w']; reflexivity.
Qed.

Lemma exec_updateJobProgress jobId progress w jobs :
  exec world (updateJobProgress jobId progress) w jobs =
    (Resolved tt, w,
     match jobs !! jobId with
     | Some job => <[jobId := Job.with_progress job progress]> jobs
     | None => jobs
     end).
Proof.
  unfold updateJobProgress. simpl. destruct (jobs !! jobId); reflexivity.
Qed.

Lemma updateJobProgress_same_statuses (jobId progress : JSString) (jobs : JobMap) :
  same_statuses jobs
    match jobs !! jobId with
    | Some job => <[jobId := Job.with_progress job progress]> jobs
    | None => jobs
    end.
Proof.
  intros j. destruct (jobs !! jobId) as [job|] eqn:E; [|reflexivity].
  destruct (decide (jobId = j)) as [<- | Hne].
  - rewrite lookup_insert_eq, E. reflexivity.
  - rewrite lookup_insert_ne by exact Hne. reflexivity.
Qed.

(** The scan of the reports stops at the first report of the major. *)
Lemma scanReports_none reports major course acc :
  List.find (fun r => bool_decide (Report.label r = major)) reports = None ->
  scanReports reports major course acc = Ret acc.
Proof.
  induction reports as [|r reports IH]; simpl; [reflexivity|].
  destruct (bool_decide (Report.label r = major)); [discriminate | exact IH].
Qed.

Lemma scanReports_some reports major course acc report :
  List.find (fun r => bool_decide (Report.label r = major)) reports = Some report ->
  scanReports reports major course acc =
    (let* pdfResponse := await (GetArtifact (Report.key report)) in
     if Axios.status pdfResponse =? 200 then
       let* courseCheck :=
         checkCourseArticulation (Axios.data pdfResponse) course (Report.key report) in
       if CourseCheck.isArticulated courseCheck
          && truthy (CourseCheck.college courseCheck)
       then Ret (acc ++ [CourseCheck.college courseCheck])
       else Ret acc
     else Ret acc).
Proof.
  induction reports as [|r reports IH]; simpl; [discriminate|].
  destruct (bool_decide (Report.label r = major)).
  - intros H; injection H as ->. reflexivity.
  - exact IH.
Qed.

(** What one turn of the loop leaves behind: the array as it was, or
    with one name more; the turn never throws and leaves [jobs] alone. *)
Lemma exec_processCollege universityId major course collegeId acc w jobs :
  exists acc' w',
    exec world (processCollege universityId major course collegeId acc) w jobs
      = (Resolved acc', w', jobs)
    /\ (acc' = acc \/ exists name, acc' = acc ++ [name]).
Proof.
  unfold processCollege. rewrite exec_try_catch, exec_bind, exec_await.
  destruct (world _ (GetMajors universityId collegeId) w) as [[majors | e] w1];
    [|simpl; eauto 6].
  destruct (List.find (fun r => bool_decide (Report.label r = major))
              (default [] (MajorData.reports (Axios.data majors))))
    as [report|] eqn:Hfind.
  - rewrite (scanReports_some _ _ _ _ _ Hfind), exec_bind, exec_await.
    destruct (world _ (GetArtifact (Report.key report)) w1) as [[pdf | e] w2];
      [|simpl; eauto 6].
    destruct (Axios.status pdf =? 200); [|simpl; eauto 6].
    rewrite exec_bind, exec_checkCourseArticulation.
    destruct (world _ (PDFParser (Axios.data pdf)) w2) as [[data | e] w3].
    + destruct (CourseCheck.isArticulated _ && truthy _); simpl; eauto 8.
    + simpl. eauto 6.
  - rewrite (scanReports_none _ _ _ _ Hfind). simpl. eauto 6.
Qed.

(** The loop goes through every partner: it never throws, counts one for
    each of them, only ever extends the array, and changes no status. *)
Lemma exec_processColleges jobId universityId major course total collegeIds :
  forall acc n w jobs,
  exists more w' jobs',
    exec world
      (processColleges jobId universityId major course total collegeIds acc n)
      w jobs
      = (Resolved (acc ++ more, (n + length collegeIds)%nat), w', jobs')
    /\ same_statuses jobs jobs'
    /\ (forall j, j <> jobId -> jobs' !! j = jobs !! j).
Proof.
  induction collegeIds as [|collegeId rest IH]; intros acc n w jobs.
  - exists [], w, jobs. simpl. rewrite app_nil_r, Nat.add_0_r.
    split; [reflexivity | split; [intros j |]; reflexivity].
  - cbn [processColleges length]. rewrite exec_bind.
    destruct (exec_processCollege universityId major course collegeId acc w jobs)
      as (acc' & w1 & -> & Hacc).
    rewrite exec_bind, exec_updateJobProgress.
    match goal with |- context [exec world _ w1 ?m] => set (jobs1 := m) end.
    destruct (IH acc' (S n) w1 jobs1) as (more & w' & jobs' & -> & Hsame & Hother).
    assert (same_statuses jobs jobs') as Hsame'.
    { intros j. rewrite (Hsame j). apply updateJobProgress_same_statuses. }
    assert (forall j, j <> jobId -> jobs' !! j = jobs !! j) as Hother'.
    { intros j Hj. rewrite (Hother j Hj). subst jobs1.
      destruct (jobs !! jobId); [|reflexivity].
      apply lookup_insert_ne. congruence. }
    replace (S n + length rest)%nat with (n + S (length rest))%nat by lia.
    destruct Hacc as [-> | [name ->]].
    + exists more, w', jobs'. split; [reflexivity | split; assumption].
    + exists (name :: more), w', jobs'. rewrite <- app_assoc.
      split; [reflexivity | split; assumption].
Qed.

Lemma insert_over (jobId : JSString) (job : Job.t) (jobs jobs' : JobMap) :
  (forall j, j <> jobId -> jobs' !! j = jobs !! j) ->
  <[jobId := job]> jobs' = <[jobId := job]> jobs.
Proof.
  intros H. apply map_eq. intros j.
  destruct (decide (jobId = j)) as [<- | Hne].
  - rewrite !lookup_insert_eq. reflexivity.
  - rewrite !lookup_insert_ne by exact Hne. apply H. congruence.
Qed.

(** Each partner adds at most one name. *)
Lemma exec_processColleges_bound jobId universityId major course total collegeIds :
  forall acc n w jobs,
  exists more w' jobs',
    exec world
      (processColleges jobId universityId major course total collegeIds acc n)
      w jobs
      = (Resolved (acc ++ more, (n + length collegeIds)%nat), w', jobs')
    /\ (length more <= length collegeIds)%nat.
Proof.
  induction collegeIds as [|collegeId rest IH]; intros acc n w jobs.
  - exists [], w, jobs. simpl. rewrite app_nil_r, Nat.add_0_r.
    split; [reflexivity | lia].
  - cbn [processColleges length]. rewrite exec_bind.
    destruct (exec_processCollege universityId major course collegeId acc w jobs)
      as (acc' & w1 & -> & Hacc).
    rewrite exec_bind, exec_updateJobProgress.
    match goal with |- context [exec world _ w1 ?m] => set (jobs1 := m) end.
    destruct (IH acc' (S n) w1 jobs1) as (more & w' & jobs' & -> & Hbound).
    replace (S n + length rest)%nat with (n + S (length rest))%nat by lia.
    destruct Hacc as [-> | [name ->]].
    + exists more, w', jobs'. split; [reflexivity | lia].
    + exists (name :: more), w', jobs'. rewrite <- app_assoc.
      split; [reflexivity | simpl; lia].
Qed.

End Exec.

(** ** The directory look-up *)

Lemma findUniversityId_no_match institutions university :
  Forall (fun inst => Institution.names inst <> []) institutions ->
  no_entry_matches institutions university ->
  findUniversityId institutions university = Ret None.
Proof.
  induction institutions as [|inst rest IH]; intros Hnamed Hno; simpl;
    [reflexivity|].
  inversion Hnamed as [|? ? Hinst Hrest]; subst.
  destruct (Institution.names inst) as [|first others] eqn:E; [congruence|].
  rewrite bool_decide_eq_false_2.
  - apply IH; [exact Hrest|].
    intros i f Hin Hhead. apply (Hno i f); [right; exact Hin | exact Hhead].
  - apply (Hno inst first); [left; reflexivity | rewrite E; reflexivity].
Qed.

(** The look-up answers the [id] of the first institution whose first
    name variant is the requested name, when every institution it goes
    through has a name. *)
Lemma findUniversityId_first_match before inst after first others university :
  Forall (fun i => Institution.names i <> []) before ->
  no_entry_matches before university ->
  Institution.names inst = first :: others ->
  NameEntry.name first = university ->
  findUniversityId (before ++ inst :: after) university
    = Ret (Some (Institution.id inst)).
Proof.
  intros Hnamed Hno Hnames Hname.
  induction before as [|i before IH]; simpl.
  - rewrite Hnames, bool_decide_eq_true_2 by exact Hname. reflexivity.
  - inversion Hnamed as [|? ? Hi Hrest]; subst.
    destruct (Institution.names i) as [|f o] eqn:E; [congruence|].
    rewrite bool_decide_eq_false_2.
    + apply IH; [exact Hrest|].
      intros i' f' Hin Hhead. apply (Hno i' f'); [right; exact Hin | exact Hhead].
    + apply (Hno i f); [left; reflexivity | rewrite E; reflexivity].
Qed.

Lemma findUniversityId_pure institutions university :
  (exists r, findUniversityId institutions university = Ret r)
  \/ findUniversityId institutions university = Throw undefined_name_error.
Proof.
  induction institutions as [|inst rest IH]; simpl; [left; eauto|].
  destruct (Institution.names inst) as [|first others]; [right; reflexivity|].
  destruct (bool_decide _); [left; eauto | exact IH].
Qed.

Lemma occurs_middle (pre pat post : JSString) : occurs pat (pre ++ pat ++ post).
Proof. exists (length pre), pre, post. split; reflexivity. Qed.

Section Run.

Context {W : Type} (world : World W).

Lemma exec_jobs_set jobId job w jobs :
  exec world (jobs_set jobId job) w jobs = (Resolved tt, w, <[jobId := job]> jobs).
Proof. reflexivity. Qed.

(** How a job ends.  It always ends, with its record written last, and
    the record is the failed one or the completed one; the latter only
    after the directory and the agreements were both obtained, and with
    one partner counted for each agreement. *)
Lemma exec_processUniversityPDFs jobId university major course w jobs :
  exists job w',
    exec world (processUniversityPDFs jobId university major course) w jobs
      = (Resolved tt, w', <[jobId := job]> jobs)
    /\ ((exists e, job = failed_job e)
        \/ (exists directory w1 universityId agreements w2 colleges,
              world _ GetInstitutions w = (Resolved directory, w1)
              /\ findUniversityId (Axios.data directory) university
                 = Ret (Some universityId)
              /\ world _ (GetAgreements universityId) w1 = (Resolved agreements, w2)
              /\ (let collegeIds :=
                    map Agreement.institutionParentId (Axios.data agreements) in
                  exists jobs2 jobs3,
                    exec world
                      (processColleges jobId universityId major course
                         (length collegeIds) collegeIds [] 0)
                      w2 jobs2
                    = (Resolved (colleges, length collegeIds), w', jobs3))
              /\ job = completed_job colleges
                         (length (Axios.data agreements)) course)).
Proof.
  unfold processUniversityPDFs.
  rewrite exec_try_catch, exec_bind, exec_jobs_set, exec_bind, exec_await.
  destruct (world _ GetInstitutions w) as [[directory | e] w1] eqn:Hdir.
  2:{ cbn [exec jobs_set]. rewrite insert_insert_eq. eauto 8. }
  rewrite exec_bind.
  destruct (findUniversityId_pure (Axios.data directory) university)
    as [[found Hfound] | Hthrow].
  2:{ rewrite Hthrow. cbn [exec jobs_set]. rewrite insert_insert_eq. eauto 8. }
  rewrite Hfound. cbn [exec].
  destruct (falsy_id found) eqn:Hfalsy.
  { cbn [exec jobs_set]. rewrite insert_insert_eq. eauto 8. }
  destruct found as [universityId|]; [|discriminate]. cbn [from_option id].
  rewrite exec_bind, exec_updateJobProgress, lookup_insert_eq, insert_insert_eq.
  rewrite exec_bind, exec_await.
  destruct (world _ (GetAgreements universityId) w1) as [[agreements | e] w2] eqn:Hagr.
  2:{ cbn [exec jobs_set]. rewrite insert_insert_eq. eauto 8. }
  rewrite exec_bind, exec_updateJobProgress, lookup_insert_eq, insert_insert_eq.
  rewrite exec_bind.
  match goal with |- context [exec world (processColleges ?j ?u ?m ?c ?t ?ids ?a ?n) ?w ?js] =>
    destruct (exec_processColleges world j u m c t ids a n w js)
      as (more & w' & jobs' & Hloop & Hsame & Hother)
  end.
  rewrite Hloop.
  cbn [exec jobs_set fst snd app Nat.add]. cbn [app Nat.add] in Hloop.
  rewrite length_map.
  exists (completed_job more (length (Axios.data agreements)) course), w'.
  split.
  - f_equal. rewrite (insert_over _ _ _ _ Hother). apply insert_insert_eq.
  - right. exists directory, w1, universityId, agreements, w2, more.
    split; [reflexivity|]. split; [exact Hfound|]. split; [exact Hagr|].
    split; [|reflexivity]. cbv zeta. eauto.
Qed.

End Run.

(** ** Resolving the institution *)

(** C2, as amended.  Take a directory in which every institution has at
    least one name variant.  If no institution has the requested name as
    its first name variant (compared code unit by code unit, so letter
    case counts; later variants are not looked at), the job ends
    [failed], with an error message that contains the requested name and
    an empty list of colleges. *)
Theorem unknown_university_fails institutions university :
  Forall (fun inst => Institution.names inst <> []) institutions ->
  no_entry_matches institutions university ->
  fails_not_found institutions university.
Proof.
  intros Hnamed Hno W world w w' jobs jobId major course status Hdir.
  exists (failed_job (not_found_error university)).
  split; [|split; [reflexivity | split; [|reflexivity]]].
  - unfold processUniversityPDFs.
    rewrite exec_try_catch, exec_bind, exec_jobs_set, exec_bind, exec_await, Hdir.
    rewrite exec_bind. cbn [Axios.data].
    rewrite (findUniversityId_no_match _ _ Hnamed Hno).
    cbn [exec falsy_id jobs_set]. rewrite insert_insert_eq. reflexivity.
  - exists (message (not_found_error university)). split; [reflexivity|].
    cbn [message not_found_error].
    rewrite (app_assoc (lit "University ")). apply occurs_middle.
Qed.

Lemma unknown_university_fails_witness :
  Forall (fun inst => Institution.names inst <> []) [ucla]
  /\ no_entry_matches [ucla] (lit "ucla")
  /\ fails_not_found [ucla] (lit "ucla").
Proof.
  assert (Forall (fun inst => Institution.names inst <> []) [ucla]) as Hnamed
    by (repeat constructor; discriminate).
  assert (no_entry_matches [ucla] (lit "ucla")) as Hno.
  { intros inst first [<- | []] Hhead. injection Hhead as <-. discriminate. }
  split; [exact Hnamed|]. split; [exact Hno|].
  exact (unknown_university_fails [ucla] (lit "ucla") Hnamed Hno).
Defined.

(** C2 as stated fails on a directory with an institution that has no
    name variant: reading [names[0].name] throws, the job fails with
    that error's message, and the message does not mention the requested
    name. *)
Lemma nameless_institution_other_message :
  no_entry_matches [nameless] (lit "UCLA")
  /\ ~ fails_not_found [nameless] (lit "UCLA").
Proof.
  split.
  - intros inst first [<- | []] Hhead. discriminate.
  - intros Hclaim.
    destruct (Hclaim unit (scenario [nameless] []) tt tt ∅ (lit "job1")
                (lit "Computer Science") (lit "CS 101") 200 eq_refl)
      as (job & Hexec & _ & (msg & Hmsg & Hocc) & _).
    apply (f_equal (fun r => snd r !! lit "job1")) in Hexec.
    cbn [snd] in Hexec. rewrite lookup_insert_eq in Hexec.
    vm_compute in Hexec. injection Hexec as <-.
    injection Hmsg as <-.
    revert Hocc. apply absent_indexOf. reflexivity.
Qed.

(** ** One partner *)

Section Partner.

Context {W : Type} (world : World W).

Lemma matching_report_find major majors :
  matching_report major majors
  = List.find (fun r => bool_decide (Report.label r = major))
      (default [] (MajorData.reports (Axios.data majors))).
Proof. reflexivity. Qed.

Lemma exec_partner_articulated universityId collegeId major course w check w3 acc jobs :
  partner_articulated world universityId collegeId major course w check w3 ->
  exec world (processCollege universityId major course collegeId acc) w jobs
    = (Resolved (if truthy (CourseCheck.college check)
                 then acc ++ [CourseCheck.college check] else acc), w3, jobs).
Proof.
  intros [majors w1 report pdf w2 data w3' Hmajors Hreport Hpdf Hstatus Hparse Hart].
  unfold processCollege. rewrite exec_try_catch, exec_bind, exec_await, Hmajors.
  rewrite matching_report_find in Hreport.
  rewrite (scanReports_some _ _ _ _ _ Hreport), exec_bind, exec_await, Hpdf.
  rewrite Hstatus. cbn [Z.eqb Pos.eqb].
  rewrite exec_bind, exec_checkCourseArticulation, Hparse, Hart. cbn [andb].
  destruct (truthy _); reflexivity.
Qed.

Lemma exec_partner_fails universityId collegeId major course w w1 acc jobs :
  partner_fails world universityId collegeId major w w1 ->
  exec world (processCollege universityId major course collegeId acc) w jobs
    = (Resolved acc, w1, jobs).
Proof.
  intros Hfails. unfold processCollege.
  rewrite exec_try_catch, exec_bind, exec_await.
  destruct Hfails as
    [e w1 Hmajors
    | majors w1 Hmajors Hreport
    | majors w1 report e w2 Hmajors Hreport Hpdf
    | majors w1 report pdf w2 Hmajors Hreport Hpdf Hstatus
    | majors w1 report pdf w2 e w3 Hmajors Hreport Hpdf Hstatus Hparse];
    rewrite Hmajors; try rewrite matching_report_find in Hreport.
  - reflexivity.
  - rewrite (scanReports_none _ _ _ _ Hreport). reflexivity.
  - rewrite (scanReports_some _ _ _ _ _ Hreport), exec_bind, exec_await, Hpdf.
    reflexivity.
  - rewrite (scanReports_some _ _ _ _ _ Hreport), exec_bind, exec_await, Hpdf.
    apply Z.eqb_neq in Hstatus. rewrite Hstatus. reflexivity.
  - rewrite (scanReports_some _ _ _ _ _ Hreport), exec_bind, exec_await, Hpdf.
    rewrite Hstatus. cbn [Z.eqb Pos.eqb].
    rewrite exec_bind, exec_checkCourseArticulation, Hparse. reflexivity.
Qed.

(** The loop after the turn of its first partner. *)
Lemma exec_processColleges_cons jobId universityId major course total
    collegeId rest acc acc' n w w1 jobs :
  exec world (processCollege universityId major course collegeId acc) w jobs
    = (Resolved acc', w1, jobs) ->
  exists jobs1,
    same_statuses jobs jobs1
    /\ exec world
         (processColleges jobId universityId major course total
            (collegeId :: rest) acc n) w jobs
       = exec world
           (processColleges jobId universityId major course total rest acc' (S n))
           w1 jobs1.
Proof.
  intros Hturn. cbn [processColleges].
  rewrite exec_bind, Hturn, exec_bind, exec_updateJobProgress.
  eexists. split; [|reflexivity]. apply updateJobProgress_same_statuses.
Qed.

End Partner.

(** The loop over two lists put end to end. *)
Lemma exec_processColleges_app {W} (world : World W)
    jobId universityId major course total ids1 ids2 :
  forall acc n w jobs,
    exec world
      (processColleges jobId universityId major course total (ids1 ++ ids2) acc n)
      w jobs
    = match exec world
              (processColleges jobId universityId major course total ids1 acc n)
              w jobs with
      | (Resolved (acc1, n1), w1, jobs1) =>
          exec world
            (processColleges jobId universityId major course total ids2 acc1 n1)
            w1 jobs1
      | (Rejected e, w1, jobs1) => (Rejected e, w1, jobs1)
      end.
Proof.
  induction ids1 as [|collegeId rest IH]; intros acc n w jobs; [reflexivity|].
  cbn [app processColleges]. rewrite !exec_bind.
  destruct (exec world (processCollege universityId major course collegeId acc) w jobs)
    as [[[acc' | e] w1] jobs1]; [|reflexivity].
  rewrite !exec_bind, exec_updateJobProgress. apply IH.
Qed.

(** C1, as amended.  Take a run in which the institution is resolved and
    its agreements list the partners [before], then [collegeId], then
    [after]; let [names_before] be the names the partners [before] left
    in the array, and let the turn of [collegeId] go all the way (majors
    listed, major found, document fetched with status 200, text
    extracted) with the extractor reporting articulated.  Then the job
    ends completed, and the [applicableColleges] of its record is
    [names_before], then the institution name the extractor read, a
    string, when that name is not empty and nothing when it is empty,
    then what the partners [after] added. *)
Theorem articulated_partner_recorded {W} (world : World W)
    jobId university major course w w1 w2 jobs directory universityId agreements
    before collegeId after names_before n wb jobsb check w3 :
  world _ GetInstitutions w = (Resolved directory, w1) ->
  findUniversityId (Axios.data directory) university = Ret (Some universityId) ->
  universityId <> 0 ->
  world _ (GetAgreements universityId) w1 = (Resolved agreements, w2) ->
  map Agreement.institutionParentId (Axios.data agreements)
    = before ++ collegeId :: after ->
  exec world
    (processColleges jobId universityId major course
       (length (Axios.data agreements)) before [] 0)
    w2 (at_loop_start jobId (length (Axios.data agreements)) jobs)
    = (Resolved (names_before, n), wb, jobsb) ->
  partner_articulated world universityId collegeId major course wb check w3 ->
  exists names_after w',
    exec world (processUniversityPDFs jobId university major course) w jobs
    = (Resolved tt, w',
       <[jobId :=
           completed_job
             (names_before
                ++ (if truthy (CourseCheck.college check)
                    then [CourseCheck.college check] else [])
                ++ names_after)
             (length (Axios.data agreements)) course]> jobs)
    /\ (length names_after <= length after)%nat.
Proof.
  intros Hdir Hfound Hid Hagr Hids Hbefore Hart.
  unfold processUniversityPDFs.
  rewrite exec_try_catch, exec_bind, exec_jobs_set, exec_bind, exec_await, Hdir.
  rewrite exec_bind, Hfound. cbn [exec falsy_id].
  apply Z.eqb_neq in Hid. rewrite Hid. cbn [from_option id].
  rewrite exec_bind, exec_updateJobProgress, lookup_insert_eq, insert_insert_eq.
  rewrite exec_bind, exec_await, Hagr.
  rewrite exec_bind, exec_updateJobProgress, lookup_insert_eq, insert_insert_eq.
  rewrite exec_bind, length_map.
  change (<[jobId := Job.with_progress (Job.with_progress processing_job _) _]> jobs)
    with (at_loop_start jobId (length (Axios.data agreements)) jobs).
  (* the loop as a whole *)
  match goal with |- context [exec world (processColleges ?j ?u ?m ?c ?t ?ids ?a ?k) ?w0 ?js] =>
    destruct (exec_processColleges world j u m c t ids a k w0 js)
      as (all & w' & jobs' & Hloop & _ & Hother)
  end.
  rewrite Hloop. cbn [exec jobs_set fst snd app Nat.add].
  (* the loop, partner by partner *)
  rewrite Hids, exec_processColleges_app, Hbefore in Hloop.
  pose proof (exec_partner_articulated world _ _ _ _ _ _ _ names_before jobsb Hart)
    as Hturn.
  destruct (exec_processColleges_cons world jobId _ _ _
              (length (Axios.data agreements)) _ after _ _ n _ _ _ Hturn)
    as (jobs1 & _ & Hcons).
  rewrite Hcons in Hloop.
  match type of Hloop with
  | exec world (processColleges ?j ?u ?m ?c ?t ?ids ?a ?k) ?w0 ?js = _ =>
      destruct (exec_processColleges_bound world j u m c t ids a k w0 js)
        as (names_after & w'' & jobs'' & Hafter & Hbound)
  end.
  rewrite Hafter in Hloop. injection Hloop as Hall _ _ _.
  exists names_after, w'. split; [|exact Hbound].
  f_equal. unfold at_loop_start in Hother |- *.
  rewrite (insert_over _ _ _ _ Hother), insert_insert_eq.
  cbn [app] in Hall. rewrite <- Hall, length_map.
  destruct (truthy (CourseCheck.college check)); [|reflexivity].
  rewrite <- app_assoc. reflexivity.
Qed.

Lemma articulated_partner_recorded_witness :
  let world := stateless two_partners in
  let jobId := lit "job1" in
  let major := lit "Computer Science" in
  let course := lit "CS 101" in
  let unnamed := extract sample_unnamed course (lit "k5") in
  let named := extract sample_accepted course (lit "k7") in
  let final := exec world (processUniversityPDFs jobId (lit "UCLA") major course) tt ∅ in
  partner_articulated world 1 5 major course tt unnamed tt
  /\ CourseCheck.college unnamed = []
  /\ partner_articulated world 1 7 major course tt named tt
  /\ CourseCheck.college named = lit "Santa Monica College"
  /\ (exists names_after w',
        final = (Resolved tt, w',
                 <[jobId := completed_job ([] ++ [] ++ names_after) 2 course]> ∅)
        /\ (length names_after <= 1)%nat)
  /\ (exists names_after w',
        final = (Resolved tt, w',
                 <[jobId := completed_job
                              ([] ++ [lit "Santa Monica College"] ++ names_after)
                              2 course]> ∅)
        /\ (length names_after <= 0)%nat).
Proof.
  intros world jobId major course unnamed named final.
  set (directory := {| Axios.status := 200; Axios.data := [ucla] |}).
  set (agreements :=
         {| Axios.status := 200;
            Axios.data := [{| Agreement.institutionParentId := 5 |};
                           {| Agreement.institutionParentId := 7 |}] |}).
  assert (1 <> 0) as Hid by discriminate.
  assert (partner_articulated world 1 5 major course tt unnamed tt) as Hfive.
  { exact (partner_articulated_intro world 1 5 major course tt
             {| Axios.status := 200;
                Axios.data :=
                  {| MajorData.reports :=
                       Some [{| Report.label := lit "Computer Science";
                                Report.key := lit "k5" |}] |} |}
             tt {| Report.label := lit "Computer Science"; Report.key := lit "k5" |}
             {| Axios.status := 200; Axios.data := [Byte.x05] |} tt
             {| Pdf.text := sample_unnamed |} tt
             eq_refl eq_refl eq_refl eq_refl eq_refl eq_refl). }
  assert (partner_articulated world 1 7 major course tt named tt) as Hseven.
  { exact (partner_articulated_intro world 1 7 major course tt
             {| Axios.status := 200;
                Axios.data :=
                  {| MajorData.reports :=
                       Some [{| Report.label := lit "Computer Science";
                                Report.key := lit "k7" |}] |} |}
             tt {| Report.label := lit "Computer Science"; Report.key := lit "k7" |}
             {| Axios.status := 200; Axios.data := [Byte.x07] |} tt
             {| Pdf.text := sample_accepted |} tt
             eq_refl eq_refl eq_refl eq_refl eq_refl eq_refl). }
  split; [exact Hfive|]. split; [reflexivity|].
  split; [exact Hseven|]. split; [reflexivity|]. split.
  - exact (articulated_partner_recorded world jobId (lit "UCLA") major course
             tt tt tt ∅ directory 1 agreements [] 5 [7] [] 0%nat tt
             (at_loop_start jobId 2 ∅) unnamed tt
             eq_refl eq_refl Hid eq_refl eq_refl eq_refl Hfive).
  - exact (articulated_partner_recorded world jobId (lit "UCLA") major course
             tt tt tt ∅ directory 1 agreements [5] 7 [] [] 1%nat tt
             (snd (exec world (processColleges jobId 1 major course 2 [5] [] 0)
                     tt (at_loop_start jobId 2 ∅)))
             named tt
             eq_refl eq_refl Hid eq_refl eq_refl eq_refl Hseven).
Defined.

(** C1 as stated fails when the document has no [From:] line: the
    document is fetched with status 200 and the extractor reports
    articulated, yet nothing is pushed, and the job completes with an
    empty list. *)
Lemma unnamed_articulated_partner_dropped :
  let world := scenario [ucla] sample_unnamed in
  let check := extract sample_unnamed (lit "CS 101") (lit "k1") in
  partner_articulated world 1 5 (lit "Computer Science") (lit "CS 101") tt check tt
  /\ CourseCheck.isArticulated check = true
  /\ exec world
       (processColleges (lit "job1") 1 (lit "Computer Science") (lit "CS 101")
          1 [5] [] 0) tt ∅
     = (Resolved ([], 1%nat), tt, ∅)
  /\ exec world
       (processUniversityPDFs (lit "job1") (lit "UCLA") (lit "Computer Science")
          (lit "CS 101")) tt ∅
     = (Resolved tt, tt, {[ lit "job1" := completed_job [] 1 (lit "CS 101") ]}).
Proof.
  intros world check. split; [|split; [reflexivity | split]].
  - exact (partner_articulated_intro world 1 5 (lit "Computer Science")
             (lit "CS 101") tt
             {| Axios.status := 200;
                Axios.data :=
                  {| MajorData.reports :=
                       Some [{| Report.label := lit "Computer Science";
                                Report.key := lit "k1" |}] |} |}
             tt {| Report.label := lit "Computer Science"; Report.key := lit "k1" |}
             {| Axios.status := 200; Axios.data := [] |} tt
             {| Pdf.text := sample_unnamed |} tt
             eq_refl eq_refl eq_refl eq_refl eq_refl eq_refl).
  - vm_compute. reflexivity.
  - vm_compute. reflexivity.
Qed.

(** ** Counting the partners *)

(** C7.  (1) A partner whose turn fails (majors request rejected, major
    not listed, document request rejected, status other than 200, text
    extraction rejected) leaves the array and the job map as they were
    and throws nothing.  (2) The loop then goes on with the next
    partner, one more counted, and no status has changed.  (3) Whatever
    the partners do, the loop gets to its end, having counted every one
    of them and changed no status.  (4) A job that ends [completed] has
    [totalProcessed] equal to the number of partner identifiers that the
    agreements request listed. *)
Theorem partner_failures_isolated_and_counted {W} (world : World W) :
  (forall universityId major course collegeId acc w w1 jobs,
      partner_fails world universityId collegeId major w w1 ->
      exec world (processCollege universityId major course collegeId acc) w jobs
        = (Resolved acc, w1, jobs))
  /\ (forall jobId universityId major course total collegeId rest acc n w w1 jobs,
        partner_fails world universityId collegeId major w w1 ->
        exists jobs1,
          same_statuses jobs jobs1
          /\ exec world
               (processColleges jobId universityId major course total
                  (collegeId :: rest) acc n) w jobs
             = exec world
                 (processColleges jobId universityId major course total
                    rest acc (S n)) w1 jobs1)
  /\ (forall jobId universityId major course total collegeIds acc n w jobs,
        exists more w' jobs',
          exec world
            (processColleges jobId universityId major course total
               collegeIds acc n) w jobs
          = (Resolved (acc ++ more, (n + length collegeIds)%nat), w', jobs')
          /\ same_statuses jobs jobs')
  /\ (forall jobId university major course w jobs job,
        snd (exec world (processUniversityPDFs jobId university major course) w jobs)
          !! jobId = Some job ->
        Job.status job = completed ->
        exists directory w1 universityId agreements w2,
          world _ GetInstitutions w = (Resolved directory, w1)
          /\ findUniversityId (Axios.data directory) university
             = Ret (Some universityId)
          /\ world _ (GetAgreements universityId) w1 = (Resolved agreements, w2)
          /\ Job.totalProcessed job
             = Some (length (map Agreement.institutionParentId
                               (Axios.data agreements)))).
Proof.
  split; [|split; [|split]].
  - intros. apply exec_partner_fails. assumption.
  - intros jobId universityId major course total collegeId rest acc n w w1 jobs Hfails.
    apply exec_processColleges_cons. apply exec_partner_fails. exact Hfails.
  - intros jobId universityId major course total collegeIds acc n w jobs.
    destruct (exec_processColleges world jobId universityId major course total
                collegeIds acc n w jobs) as (more & w' & jobs' & Hloop & Hsame & _).
    exists more, w', jobs'. split; assumption.
  - intros jobId university major course w jobs job Hjob Hcompleted.
    destruct (exec_processUniversityPDFs world jobId university major course w jobs)
      as (job' & w' & Hexec & Hend).
    rewrite Hexec in Hjob. cbn [snd] in Hjob.
    rewrite lookup_insert_eq in Hjob. injection Hjob as ->.
    destruct Hend as [[e ->] | (directory & w1 & universityId & agreements & w2
                                & colleges & Hdir & Hfound & Hagr & _ & ->)].
    + discriminate.
    + exists directory, w1, universityId, agreements, w2.
      rewrite length_map. repeat split; assumption.
Qed.

Lemma partner_failures_isolated_and_counted_witness :
  let world := scenario [ucla] sample_accepted in
  let jobId := lit "job1" in
  let final :=
    exec world
      (processUniversityPDFs jobId (lit "UCLA") (lit "Physics") (lit "CS 101")) tt ∅ in
  partner_fails world 1 5 (lit "Physics") tt tt
  /\ exec world (processCollege 1 (lit "Physics") (lit "CS 101") 5 []) tt ∅
     = (Resolved [], tt, ∅)
  /\ snd final !! jobId = Some (completed_job [] 1 (lit "CS 101"))
  /\ exists directory w1 universityId agreements w2,
       world _ GetInstitutions tt = (Resolved directory, w1)
       /\ findUniversityId (Axios.data directory) (lit "UCLA")
          = Ret (Some universityId)
       /\ world _ (GetAgreements universityId) w1 = (Resolved agreements, w2)
       /\ Job.totalProcessed (completed_job [] 1 (lit "CS 101"))
          = Some (length (map Agreement.institutionParentId (Axios.data agreements))).
Proof.
  intros world jobId final.
  assert (partner_fails world 1 5 (lit "Physics") tt tt) as Hfails.
  { exact (fails_major_missing world 1 5 (lit "Physics") tt
             {| Axios.status := 200;
                Axios.data :=
                  {| MajorData.reports :=
                       Some [{| Report.label := lit "Computer Science";
                                Report.key := lit "k1" |}] |} |}
             tt eq_refl eq_refl). }
  assert (snd final !! jobId = Some (completed_job [] 1 (lit "CS 101"))) as Hjob
    by (vm_compute; reflexivity).
  destruct (partner_failures_isolated_and_counted world)
    as (Hturn & _ & _ & Htotal).
  split; [exact Hfails|]. split; [|split; [exact Hjob|]].
  - exact (Hturn 1 (lit "Physics") (lit "CS 101") 5 [] tt tt ∅ Hfails).
  - exact (Htotal jobId (lit "UCLA") (lit "Physics") (lit "CS 101") tt ∅
             (completed_job [] 1 (lit "CS 101")) Hjob eq_refl).
Defined.

(** ** Disciplines on the job map *)

Section Obeys.

Variable reads : JSString -> option Job.t -> Prop.
Variable writes : JSString -> Job.t -> Prop.

Lemma obeys_bind {A B} (p : Prog A) (f : A -> Prog B) :
  obeys reads writes p ->
  (forall a, obeys reads writes (f a)) ->
  obeys reads writes (bind p f).
Proof.
  intros Hp Hf. induction p as [a | e | X e k IH | j k IH | j job k IH]; simpl in *.
  - apply Hf.
  - exact I.
  - intros o. apply IH, Hp.
  - intros r Hr. apply IH, Hp, Hr.
  - destruct Hp as [Hw Hk]. split; [exact Hw | apply IH, Hk].
Qed.

Lemma obeys_try_catch {A} (p : Prog A) (h : JsError -> Prog A) :
  obeys reads writes p ->
  (forall e, obeys reads writes (h e)) ->
  obeys reads writes (try_catch p h).
Proof.
  intros Hp Hh. induction p as [a | e | X e k IH | j k IH | j job k IH]; simpl in *.
  - exact I.
  - apply Hh.
  - intros o. apply IH, Hp.
  - intros r Hr. apply IH, Hp, Hr.
  - destruct Hp as [Hw Hk]. split; [exact Hw | apply IH, Hk].
Qed.

Lemma obeys_await {X} (e : asyncE X) : obeys reads writes (await e).
Proof. intros [x | err]; exact I. Qed.

Lemma obeys_updateJobProgress jobId progress :
  (forall job, reads jobId (Some job) ->
               writes jobId (Job.with_progress job progress)) ->
  obeys reads writes (updateJobProgress jobId progress).
Proof.
  intros Hprogress [job|] Hr; simpl; [|exact I].
  split; [apply Hprogress; exact Hr | exact I].
Qed.

Lemma obeys_checkCourseArticulation pdfBuffer course key :
  obeys reads writes (checkCourseArticulation pdfBuffer course key).
Proof.
  unfold checkCourseArticulation. apply obeys_try_catch.
  - apply obeys_bind; [apply obeys_await | intros; exact I].
  - intros; exact I.
Qed.

Lemma obeys_scanReports reports major course acc :
  obeys reads writes (scanReports reports major course acc).
Proof.
  induction reports as [|r reports IH]; cbn [scanReports]; [exact I|].
  destruct (bool_decide _); [|exact IH].
  apply obeys_bind; [apply obeys_await|]. intros pdfResponse.
  destruct (Axios.status pdfResponse =? 200); [|exact I].
  apply obeys_bind; [apply obeys_checkCourseArticulation|]. intros courseCheck.
  destruct (_ && _); exact I.
Qed.

Lemma obeys_processCollege universityId major course collegeId acc :
  obeys reads writes (processCollege universityId major course collegeId acc).
Proof.
  unfold processCollege. apply obeys_try_catch; [|intros; exact I].
  apply obeys_bind; [apply obeys_await|]. intros. apply obeys_scanReports.
Qed.

Lemma obeys_processColleges jobId universityId major course total collegeIds :
  (forall job progress, reads jobId (Some job) ->
                        writes jobId (Job.with_progress job progress)) ->
  forall acc n,
    obeys reads writes
      (processColleges jobId universityId major course total collegeIds acc n).
Proof.
  intros Hprogress.
  induction collegeIds as [|collegeId rest IH]; intros acc n;
    cbn [processColleges]; [exact I|].
  apply obeys_bind; [apply obeys_processCollege|]. intros acc'.
  apply obeys_bind; [apply obeys_updateJobProgress; intros; apply Hprogress; assumption|].
  intros _. apply IH.
Qed.

Lemma obeys_findUniversityId institutions university :
  obeys reads writes (findUniversityId institutions university).
Proof.
  destruct (findUniversityId_pure institutions university) as [[r ->] | ->];
    exact I.
Qed.

(** One uninterrupted run keeps the map within [reads], and so does
    whatever remains to be run. *)
Lemma segment_obeys {A} (p : Prog A) :
  (forall jobId job, writes jobId job -> reads jobId (Some job)) ->
  forall jobs : JobMap,
    obeys reads writes p ->
    (forall jobId, reads jobId (jobs !! jobId)) ->
    (forall jobId, reads jobId (snd (segment p jobs) !! jobId))
    /\ match fst (segment p jobs) with
       | Waiting e k => forall o, obeys reads writes (k o)
       | Settled _ => True
       end.
Proof.
  intros Hwr.
  induction p as [a | e | X e k IH | j k IH | j job k IH]; intros jobs Hp Hjobs;
    simpl in *.
  - split; [exact Hjobs | exact I].
  - split; [exact Hjobs | exact I].
  - split; [exact Hjobs | exact Hp].
  - apply IH; [apply Hp, Hjobs | exact Hjobs].
  - destruct Hp as [Hw Hk]. apply IH; [exact Hk|].
    intros jobId. destruct (decide (j = jobId)) as [<- | Hne].
    + rewrite lookup_insert_eq. apply Hwr, Hw.
    + rewrite lookup_insert_ne by exact Hne. apply Hjobs.
Qed.

End Obeys.

Lemma obeys_processUniversityPDFs reads writes jobId university major course :
  (forall job progress, reads jobId (Some job) ->
                        writes jobId (Job.with_progress job progress)) ->
  writes jobId processing_job ->
  (forall colleges n, writes jobId (completed_job colleges n course)) ->
  (forall e, writes jobId (failed_job e)) ->
  obeys reads writes (processUniversityPDFs jobId university major course).
Proof.
  intros Hprogress Hprocessing Hcompleted Hfailed. unfold processUniversityPDFs.
  apply obeys_try_catch; [|intros e; split; [apply Hfailed | exact I]].
  apply obeys_bind; [split; [exact Hprocessing | exact I]|]. intros _.
  apply obeys_bind; [apply obeys_await|]. intros institutionsResponse.
  apply obeys_bind; [apply obeys_findUniversityId|]. intros universityId.
  destruct (falsy_id universityId); [exact I|].
  apply obeys_bind; [apply obeys_updateJobProgress; intros; apply Hprogress; assumption|].
  intros _.
  apply obeys_bind; [apply obeys_await|]. intros agreementsResponse.
  apply obeys_bind; [apply obeys_updateJobProgress; intros; apply Hprogress; assumption|].
  intros _.
  apply obeys_bind; [apply obeys_processColleges, Hprogress|]. intros result.
  split; [apply Hcompleted | exact I].
Qed.

(** ** The retention sweep *)

Lemma cleanup_unstamped (now : Z) (jobs : JobMap) :
  (forall jobId, unstamped (jobs !! jobId)) -> cleanup now jobs = jobs.
Proof.
  intros Hjobs. unfold cleanup.
  assert (forall entry, entry ∈ map_to_list jobs ->
                        expired (now - 60 * 60 * 1000) (snd entry) = false) as Hnot.
  { intros [jobId job] Hin. apply elem_of_map_to_list in Hin.
    unfold expired. cbn [snd]. rewrite (Hjobs jobId job Hin). reflexivity. }
  revert Hnot. generalize (map_to_list jobs) as entries.
  clear Hjobs. generalize jobs as m.
  intros m entries; revert m; induction entries as [|entry entries IH];
    intros m Hnot; simpl; [reflexivity|].
  rewrite (Hnot entry) by (left).
  apply IH. intros e He. apply Hnot. right. exact He.
Qed.

Lemma never_stamped_start : never_stamped start.
Proof.
  split; [|constructor]. intros jobId job H.
  cbn [start jobs] in H. rewrite lookup_empty in H. discriminate.
Qed.

Lemma never_stamped_suspend jobId (r : Suspension unit) tasks :
  Forall (fun t => forall o,
            obeys (fun _ => unstamped) (fun _ job => Job.createdAt job = None)
              (task_resume t o)) tasks ->
  match r with
  | Waiting e k =>
      forall o, obeys (fun _ => unstamped) (fun _ job => Job.createdAt job = None) (k o)
  | Settled _ => True
  end ->
  Forall (fun t => forall o,
            obeys (fun _ => unstamped) (fun _ job => Job.createdAt job = None)
              (task_resume t o)) (suspend jobId r tasks).
Proof.
  intros Htasks Hr. destruct r as [o | X e k]; cbn [suspend]; [exact Htasks|].
  apply Forall_app. split; [exact Htasks|]. constructor; [exact Hr | constructor].
Qed.

Lemma never_stamped_segment (p : Prog unit) (js : JobMap) :
  obeys (fun _ => unstamped) (fun _ job => Job.createdAt job = None) p ->
  (forall jobId, unstamped (js !! jobId)) ->
  (forall jobId, unstamped (snd (segment p js) !! jobId))
  /\ match fst (segment p js) with
     | Waiting e k =>
         forall o, obeys (fun _ => unstamped) (fun _ job => Job.createdAt job = None) (k o)
     | Settled _ => True
     end.
Proof.
  apply (segment_obeys (fun _ => unstamped) (fun _ job => Job.createdAt job = None)).
  intros jobId job H job' Heq. injection Heq as <-. exact H.
Qed.

Lemma never_stamped_step s ev s' : never_stamped s -> step s ev s' -> never_stamped s'.
Proof.
  intros [Hjobs Htasks] Hstep.
  destruct Hstep as [s body jobId | s jobId | s i t o Ht | s now].
  - unfold post_process_pdfs.
    destruct (negb _ || negb _ || negb _); [split; assumption|].
    destruct (never_stamped_segment
                (processUniversityPDFs jobId (default [] (university body))
                   (default [] (major body)) (default [] (course body)))
                (jobs s)) as [Hjobs' Hr]; [|exact Hjobs|].
    { apply obeys_processUniversityPDFs; try reflexivity.
      intros job progress H. apply (H job). reflexivity. }
    destruct (segment _ (jobs s)) as [r jobs']. cbn [fst snd jobs pending] in *.
    split; [exact Hjobs' | apply never_stamped_suspend; assumption].
  - split; assumption.
  - unfold settle.
    pose proof (Forall_lookup_1 _ _ _ _ Htasks Ht o) as Hresume.
    destruct (never_stamped_segment (task_resume t o) (jobs s) Hresume Hjobs)
      as [Hjobs' Hr].
    destruct (segment _ (jobs s)) as [r jobs']. cbn [fst snd jobs pending] in *.
    split; [exact Hjobs'|].
    apply never_stamped_suspend; [apply Forall_delete; exact Htasks | exact Hr].
  - split; cbn [jobs pending]; [|exact Htasks].
    rewrite (cleanup_unstamped now _ Hjobs). exact Hjobs.
Qed.

Lemma never_stamped_reaches allowed s s' :
  never_stamped s -> reaches allowed s s' -> never_stamped s'.
Proof.
  intros Hs Hreach. induction Hreach as [s | s s1 ev s2 _ IH _ Hstep].
  - exact Hs.
  - exact (never_stamped_step _ _ _ (IH Hs) Hstep).
Qed.

(** C9.  In every state the server can reach, whatever the events, no
    job record carries a [createdAt], and the sweep, run at any time,
    leaves the job map as it is. *)
Theorem sweep_is_inert allowed s :
  reachable allowed s ->
  (forall jobId job, jobs s !! jobId = Some job -> Job.createdAt job = None)
  /\ (forall now, cleanup now (jobs s) = jobs s).
Proof.
  intros Hreach.
  destruct (never_stamped_reaches allowed start s never_stamped_start Hreach)
    as [Hjobs _].
  split; [exact Hjobs|]. intros now. apply cleanup_unstamped. exact Hjobs.
Qed.

Lemma sweep_is_inert_witness :
  let s := fst (post_process_pdfs valid_body (lit "job1") start) in
  reachable any_event s
  /\ (forall jobId job, jobs s !! jobId = Some job -> Job.createdAt job = None)
  /\ (forall now, cleanup now (jobs s) = jobs s).
Proof.
  intros s.
  assert (reachable any_event s) as Hreach.
  { exact (reaches_step any_event start start (Post valid_body (lit "job1")) s
             (reaches_refl any_event start) I
             (step_post start valid_body (lit "job1"))). }
  split; [exact Hreach|]. exact (sweep_is_inert any_event s Hreach).
Defined.

(** ** Submitting and polling *)

Lemma segment_keeps {A} (p : Prog A) (js : JobMap) (jobId : JSString) :
  is_Some (js !! jobId) -> is_Some (snd (segment p js) !! jobId).
Proof.
  revert js; induction p as [a | e | X e k IH | j k IH | j job k IH];
    intros js Hjob; simpl; try exact Hjob.
  - apply IH. exact Hjob.
  - apply IH. apply lookup_insert_is_Some'. right. exact Hjob.
Qed.

Lemma step_keeps s ev s' (jobId : JSString) :
  never_stamped s -> step s ev s' ->
  is_Some (jobs s !! jobId) -> is_Some (jobs s' !! jobId).
Proof.
  intros [Hjobs _] Hstep Hjob.
  destruct Hstep as [s body j | s j | s i t o Ht | s now].
  - unfold post_process_pdfs.
    destruct (negb _ || negb _ || negb _); [exact Hjob|].
    match goal with |- context [segment ?p (jobs s)] =>
      pose proof (segment_keeps p (jobs s) jobId Hjob) as Hkept;
      destruct (segment p (jobs s)) as [r jobs']
    end.
    exact Hkept.
  - exact Hjob.
  - unfold settle.
    pose proof (segment_keeps (task_resume t o) (jobs s) jobId Hjob) as Hkept.
    destruct (segment _ (jobs s)) as [r jobs']. exact Hkept.
  - cbn [jobs]. rewrite (cleanup_unstamped now _ Hjobs). exact Hjob.
Qed.

Lemma reaches_keeps allowed s s' (jobId : JSString) :
  never_stamped s -> reaches allowed s s' ->
  is_Some (jobs s !! jobId) -> is_Some (jobs s' !! jobId).
Proof.
  intros Hs Hreach Hjob. induction Hreach as [s | s s1 ev s2 Hreach IH _ Hstep].
  - exact Hjob.
  - apply (step_keeps s1 ev s2); [|exact Hstep | exact (IH Hs Hjob)].
    exact (never_stamped_reaches allowed s s1 Hs Hreach).
Qed.

(** The first uninterrupted run of [processUniversityPDFs] writes the
    record of a job in progress and stops at the request for the
    directory. *)
Lemma first_segment (jobId university major course : JSString) (js : JobMap) :
  exists k,
    segment (processUniversityPDFs jobId university major course) js
    = (Waiting GetInstitutions k, <[jobId := processing_job]> js).
Proof. eexists. reflexivity. Qed.

(** C10.  A submission with its three fields given is answered with the
    job identifier, and when the handler answers, the record of the job,
    in progress, is already in the map: the activation of
    [processUniversityPDFs] wrote it before it stopped at its first
    [await].  From then on, whatever happens, polling that identifier
    finds a job. *)
Theorem submitted_job_is_found allowed allowed' s body jobId :
  reachable allowed s ->
  given (university body) = true ->
  given (major body) = true ->
  given (course body) = true ->
  snd (post_process_pdfs body jobId s) = Started jobId
  /\ (exists k,
        segment (processUniversityPDFs jobId (default [] (university body))
                   (default [] (major body)) (default [] (course body)))
          (jobs s)
        = (Waiting GetInstitutions k, <[jobId := processing_job]> (jobs s)))
  /\ jobs (fst (post_process_pdfs body jobId s)) !! jobId = Some processing_job
  /\ (forall s', reaches allowed' (fst (post_process_pdfs body jobId s)) s' ->
                 exists job, get_job jobId s' = JobJson job).
Proof.
  intros Hreach Hu Hm Hc.
  pose proof (never_stamped_reaches allowed start s never_stamped_start Hreach)
    as Hs.
  pose proof (never_stamped_step s (Post body jobId) _ Hs (step_post s body jobId))
    as Hs1.
  destruct (first_segment jobId (default [] (university body))
              (default [] (major body)) (default [] (course body)) (jobs s))
    as [k Hk].
  assert (jobs (fst (post_process_pdfs body jobId s)) !! jobId = Some processing_job)
    as Hjob.
  { unfold post_process_pdfs. rewrite Hu, Hm, Hc, Hk. cbn [negb orb fst jobs].
    apply lookup_insert_eq. }
  split; [|split; [exists k; exact Hk | split; [exact Hjob|]]].
  - unfold post_process_pdfs. rewrite Hu, Hm, Hc, Hk. reflexivity.
  - intros s' Hreach'.
    destruct (reaches_keeps allowed' _ s' jobId Hs1 Hreach') as [job Hjob'].
    + rewrite Hjob. eauto.
    + exists job. unfold get_job. rewrite Hjob'. reflexivity.
Qed.

Lemma submitted_job_is_found_witness :
  let s1 := fst (post_process_pdfs valid_body (lit "job1") start) in
  reachable any_event start
  /\ snd (post_process_pdfs valid_body (lit "job1") start) = Started (lit "job1")
  /\ jobs s1 !! lit "job1" = Some processing_job
  /\ (forall s', reaches any_event s1 s' ->
                 exists job, get_job (lit "job1") s' = JobJson job).
Proof.
  intros s1.
  assert (reachable any_event start) as Hreach by exact (reaches_refl any_event start).
  destruct (submitted_job_is_found any_event any_event start valid_body (lit "job1")
              Hreach eq_refl eq_refl eq_refl) as (Hanswer & _ & Hjob & Hfound).
  split; [exact Hreach|]. split; [exact Hanswer|]. split; [exact Hjob | exact Hfound].
Defined.

(** ** The life of a job *)

Section Lifecycle.

Variable jobId : JSString.

Lemma lifecycle_quiet {A} (p : Prog A) : quiet jobId p -> lifecycle jobId p.
Proof.
  unfold quiet.
  induction p as [a | e | X e k IH | j k IH | j job k IH]; simpl; intros Hp.
  - exact I.
  - exact I.
  - intros o. apply IH, Hp.
  - intros r Hr. apply IH, Hp, Hr.
  - destruct Hp as [[-> Hlive] Hk].
    split; [reflexivity | left; split; [exact Hlive | apply IH, Hk]].
Qed.

Lemma lifecycle_bind {A B} (p : Prog A) (f : A -> Prog B) :
  quiet jobId p ->
  (forall a, lifecycle jobId (f a)) ->
  lifecycle jobId (bind p f).
Proof.
  unfold quiet. intros Hp Hf.
  induction p as [a | e | X e k IH | j k IH | j job k IH]; simpl in *.
  - apply Hf.
  - exact I.
  - intros o. apply IH, Hp.
  - intros r Hr. apply IH, Hp, Hr.
  - destruct Hp as [[-> Hlive] Hk].
    split; [reflexivity | left; split; [exact Hlive | apply IH, Hk]].
Qed.

Lemma lifecycle_try_catch {A} (p : Prog A) (h : JsError -> Prog A) :
  lifecycle jobId p ->
  (forall e, lifecycle jobId (h e)) ->
  lifecycle jobId (try_catch p h).
Proof.
  intros Hp Hh.
  induction p as [a | e | X e k IH | j k IH | j job k IH]; simpl in *.
  - exact I.
  - apply Hh.
  - intros o. apply IH, Hp.
  - intros r Hr. apply IH, Hp, Hr.
  - destruct Hp as [-> [[Hlive Hk] | [Hover [a ->]]]]; (split; [reflexivity|]).
    + left. split; [exact Hlive | apply IH, Hk].
    + right. split; [exact Hover | exists a; reflexivity].
Qed.

Lemma progress_keeps_live job progress :
  reads_live jobId jobId (Some job) ->
  jobId = jobId /\ live (Job.with_progress job progress).
Proof.
  intros Hr. destruct (Hr eq_refl job eq_refl) as [Hstatus Hcolleges].
  split; [reflexivity | split; assumption].
Qed.

Lemma lifecycle_processUniversityPDFs university major course :
  lifecycle jobId (processUniversityPDFs jobId university major course).
Proof.
  unfold processUniversityPDFs. apply lifecycle_try_catch.
  - apply lifecycle_bind.
    { split; [split; [reflexivity | split; reflexivity] | exact I]. }
    intros _. apply lifecycle_bind; [apply obeys_await|].
    intros institutionsResponse.
    apply lifecycle_bind; [apply obeys_findUniversityId|]. intros universityId.
    destruct (falsy_id universityId); [exact I|].
    apply lifecycle_bind.
    { apply obeys_updateJobProgress. intros job. apply progress_keeps_live. }
    intros _. apply lifecycle_bind; [apply obeys_await|].
    intros agreementsResponse.
    apply lifecycle_bind.
    { apply obeys_updateJobProgress. intros job. apply progress_keeps_live. }
    intros _. apply lifecycle_bind.
    { apply obeys_processColleges. intros job progress. apply progress_keeps_live. }
    intros result. split; [reflexivity|]. right.
    split; [|exists tt; reflexivity].
    split; [discriminate | intros _; reflexivity].
  - intros e. split; [reflexivity|]. right.
    split; [|exists tt; reflexivity].
    split; [discriminate | intros H; discriminate].
Qed.

(** What one uninterrupted run of an activation for [jobId] does to the
    map. *)
Lemma segment_lifecycle {A} (p : Prog A) :
  forall js : JobMap,
    lifecycle jobId p ->
    (forall job, js !! jobId = Some job -> live job) ->
    (forall j job, js !! j = Some job -> counted job) ->
    (forall j, j <> jobId -> snd (segment p js) !! j = js !! j)
    /\ (forall j job, snd (segment p js) !! j = Some job -> counted job)
    /\ match fst (segment p js) with
       | Waiting e k =>
           (forall o, lifecycle jobId (k o))
           /\ (snd (segment p js) !! jobId = js !! jobId
               \/ exists job', snd (segment p js) !! jobId = Some job' /\ live job')
       | Settled _ =>
           snd (segment p js) !! jobId = js !! jobId
           \/ exists job',
                snd (segment p js) !! jobId = Some job' /\ (live job' \/ over job')
       end.
Proof.
  induction p as [a | e | X e k IH | j k IH | j job k IH];
    intros js Hp Hlive Hcounted; simpl in *.
  - split; [reflexivity | split; [exact Hcounted | left; reflexivity]].
  - split; [reflexivity | split; [exact Hcounted | left; reflexivity]].
  - split; [reflexivity | split; [exact Hcounted | split; [exact Hp | left; reflexivity]]].
  - apply IH; [|exact Hlive | exact Hcounted].
    apply Hp. intros -> job' Hjob'. exact (Hlive job' Hjob').
  - destruct Hp as [-> Hp].
    assert (forall j, j <> jobId -> <[jobId := job]> js !! j = js !! j) as Hother.
    { intros j Hj. apply lookup_insert_ne. congruence. }
    destruct Hp as [[Hjob Hk] | [Hover [a ->]]].
    + destruct (IH (<[jobId := job]> js) Hk) as (Hothers & Hcounted' & Hend).
      * intros job' Hjob'. rewrite lookup_insert_eq in Hjob'.
        injection Hjob' as <-. exact Hjob.
      * intros j job' Hjob'. destruct (decide (jobId = j)) as [<- | Hne].
        -- rewrite lookup_insert_eq in Hjob'. injection Hjob' as <-.
           intros Hcompleted. destruct Hjob as [Hstatus _]. congruence.
        -- rewrite lookup_insert_ne in Hjob' by exact Hne.
           exact (Hcounted j job' Hjob').
      * split; [|split; [exact Hcounted'|]].
        -- intros j Hj. rewrite (Hothers j Hj). exact (Hother j Hj).
        -- destruct (fst (segment k (<[jobId := job]> js))) as [o | X e k'].
           ++ right. destruct Hend as [Hsame | Hnew]; [|exact Hnew].
              exists job. rewrite Hsame, lookup_insert_eq. split; [reflexivity | left; exact Hjob].
           ++ destruct Hend as [Hk' Hend]. split; [exact Hk'|]. right.
              destruct Hend as [Hsame | Hnew]; [|exact Hnew].
              exists job. rewrite Hsame, lookup_insert_eq. split; [reflexivity | exact Hjob].
    + cbn [segment fst snd]. split; [exact Hother | split].
      * intros j job' Hjob'. destruct (decide (jobId = j)) as [<- | Hne].
        -- rewrite lookup_insert_eq in Hjob'. injection Hjob' as <-. apply Hover.
        -- rewrite lookup_insert_ne in Hjob' by exact Hne.
           exact (Hcounted j job' Hjob').
      * right. exists job. rewrite lookup_insert_eq.
        split; [reflexivity | right; exact Hover].
Qed.

End Lifecycle.

Lemma job_step_same (r : option Job.t) :
  (forall job, r = Some job -> counted job) -> job_step r r.
Proof.
  intros Hcounted. split; [|exact Hcounted].
  destruct r as [job|]; [|intros job' H; discriminate].
  exists job. split; [reflexivity|]. split; [reflexivity|].
  split; [intros H; congruence|]. split; [reflexivity | intros H; congruence].
Qed.

Lemma job_step_live job job' :
  live job -> live job' \/ over job' -> job_step (Some job) (Some job').
Proof.
  intros [Hstatus Hcolleges] Hjob'. split.
  - exists job'. split; [reflexivity|]. split; [congruence|].
    split; [|split; [rewrite Hcolleges; apply prefix_nil | intros _; exact Hstatus]].
    intros Hchanged. split; [exact Hstatus|].
    destruct Hjob' as [[Hstatus' _] | [Hstatus' _]]; [congruence|].
    destruct (Job.status job'); [congruence | left | right]; reflexivity.
  - intros job'' H. injection H as <-.
    destruct Hjob' as [[Hstatus' _] | [_ Hcounted]]; [|exact Hcounted].
    intros Hcompleted. congruence.
Qed.

Lemma NoDup_delete_lookup {A} (l : list A) i x :
  l !! i = Some x -> NoDup l -> (x ∉ delete i l) /\ NoDup (delete i l).
Proof.
  intros Hx Hl. rewrite delete_take_drop.
  rewrite <- (take_drop_middle l i x Hx) in Hl.
  apply NoDup_app in Hl. destruct Hl as (Hl1 & Hdisjoint & Hl2).
  apply NoDup_cons in Hl2. destruct Hl2 as [Hx2 Hl2].
  split.
  - intros Hin. apply elem_of_app in Hin. destruct Hin as [Hin | Hin].
    + apply (Hdisjoint x Hin). left.
    + exact (Hx2 Hin).
  - apply NoDup_app. split; [exact Hl1 | split; [|exact Hl2]].
    intros y Hy Hy2. apply (Hdisjoint y Hy). right. exact Hy2.
Qed.

Lemma orderly_start : orderly start.
Proof.
  split; [constructor | split; [constructor|]].
  intros jobId job H. cbn [start jobs] in H. rewrite lookup_empty in H. discriminate.
Qed.

(** One event keeps the server orderly, and does to each record what
    [job_step] allows. *)
Lemma orderly_step s ev s' :
  orderly s -> never_stamped s -> fresh_ids s ev -> step s ev s' ->
  orderly s' /\ forall jobId, job_step (jobs s !! jobId) (jobs s' !! jobId).
Proof.
  intros (Htasks & Hunique & Hcounted) [Hunstamped _] Hfresh Hstep.
  assert (orderly s /\ forall jobId, job_step (jobs s !! jobId) (jobs s !! jobId))
    as Hsame.
  { split; [split; [exact Htasks | split; [exact Hunique | exact Hcounted]]|].
    intros jobId. apply job_step_same. apply Hcounted. }
  destruct Hstep as [s body jobId | s jobId | s i t o Ht | s now].
  - (* POST /api/process-pdfs *)
    unfold post_process_pdfs. cbn [fresh_ids] in Hfresh.
    destruct (given (university body)); [|exact Hsame].
    destruct (given (major body)); [|exact Hsame].
    destruct (given (course body)); [|exact Hsame].
    specialize (Hfresh eq_refl). cbn [negb orb].
    destruct (first_segment jobId (default [] (university body))
                (default [] (major body)) (default [] (course body)) (jobs s))
      as [k Hk].
    destruct (segment_lifecycle jobId _ (jobs s)
                (lifecycle_processUniversityPDFs jobId (default [] (university body))
                   (default [] (major body)) (default [] (course body))))
      as (_ & Hcounted' & Hend).
    { intros job Hjob. congruence. }
    { exact Hcounted. }
    rewrite Hk in Hcounted', Hend |- *. cbn [fst snd jobs pending suspend] in *.
    destruct Hend as [Hk' _].
    assert (forall t, t ∈ pending s -> task_jobId t <> jobId) as Hothers.
    { intros t Hin. rewrite Forall_forall in Htasks.
      destruct (Htasks t Hin) as [(job & Hjob & _) _]. congruence. }
    unfold orderly. cbn [jobs pending].
    split; [split; [|split; [|exact Hcounted']]|].
    + apply Forall_app. split.
      * rewrite Forall_forall in Htasks |- *. intros t Hin.
        destruct (Htasks t Hin) as [Hjob Hlife]. split; [|exact Hlife].
        rewrite lookup_insert_ne by (apply not_eq_sym, Hothers, Hin). exact Hjob.
      * constructor; [|constructor]. cbn [task_jobId task_resume].
        split; [|exact Hk']. exists processing_job.
        rewrite lookup_insert_eq. split; [reflexivity | split; reflexivity].
    + rewrite fmap_app. apply NoDup_app.
      split; [exact Hunique | split; [|apply NoDup_singleton]].
      intros j Hj Hj'. apply list_elem_of_fmap in Hj. destruct Hj as (t & -> & Hin).
      apply list_elem_of_singleton in Hj'. exact (Hothers t Hin Hj').
    + intros j. destruct (decide (jobId = j)) as [<- | Hne].
      * rewrite Hfresh, lookup_insert_eq. split.
        -- intros job' H. injection H as <-. reflexivity.
        -- intros job' H. injection H as <-. intros H; discriminate.
      * rewrite lookup_insert_ne by exact Hne. apply job_step_same. apply Hcounted.
  - (* GET /api/jobs/:jobId *)
    exact Hsame.
  - (* a pending promise settles *)
    unfold settle.
    destruct (Forall_lookup_1 _ _ _ _ Htasks Ht) as [(job & Hjob & Hlive) Hlife].
    destruct (segment_lifecycle (task_jobId t) (task_resume t o) (jobs s) (Hlife o))
      as (Hothers & Hcounted' & Hend).
    { intros job0 Hjob0. congruence. }
    { exact Hcounted. }
    destruct (segment (task_resume t o) (jobs s)) as [r jobs'].
    cbn [fst snd jobs pending] in *.
    assert ((task_jobId <$> pending s) !! i = Some (task_jobId t)) as Hid
      by (rewrite list_lookup_fmap, Ht; reflexivity).
    destruct (NoDup_delete_lookup _ _ _ Hid Hunique) as [Hgone Hunique'].
    rewrite <- list_fmap_delete in Hgone, Hunique'.
    assert (Forall (fun t' =>
                      (exists job', jobs' !! task_jobId t' = Some job' /\ live job')
                      /\ forall o', lifecycle (task_jobId t') (task_resume t' o'))
              (delete i (pending s))) as Hrest.
    { rewrite Forall_forall in Htasks |- *. intros t' Hin.
      destruct (Htasks t' (list_elem_of_delete_inv _ _ _ Hin)) as [Hjob' Hlife'].
      split; [|exact Hlife']. rewrite Hothers; [exact Hjob'|].
      intros Heq. apply Hgone. apply list_elem_of_fmap. exists t'.
      split; [symmetry; exact Heq | exact Hin]. }
    assert (forall j, job_step (jobs s !! j) (jobs' !! j)) as Hsteps.
    { intros j. destruct (decide (j = task_jobId t)) as [-> | Hne].
      - rewrite Hjob.
        assert (jobs' !! task_jobId t = Some job
                \/ exists job', jobs' !! task_jobId t = Some job'
                                /\ (live job' \/ over job')) as [Hjob' | (job' & Hjob' & Hnew)].
        { destruct r as [outcome | X e k].
          - destruct Hend as [Hend | Hend]; [left; congruence | right; exact Hend].
          - destruct Hend as [_ [Hend | (job' & Hjob' & Hnew)]];
              [left; congruence | right; eauto]. }
        + rewrite Hjob'. apply job_step_same. intros job0 H. injection H as <-.
          exact (Hcounted _ _ Hjob).
        + rewrite Hjob'. apply job_step_live; assumption.
      - rewrite (Hothers j Hne). apply job_step_same. apply Hcounted. }
    split; [|exact Hsteps].
    unfold orderly. destruct r as [outcome | X e k]; cbn [suspend jobs pending].
    + split; [exact Hrest | split; [exact Hunique' | exact Hcounted']].
    + destruct Hend as [Hk Hend].
      split; [|split; [|exact Hcounted']].
      * apply Forall_app. split; [exact Hrest|]. constructor; [|constructor].
        cbn [task_jobId task_resume]. split; [|exact Hk].
        destruct Hend as [Hend | Hend]; [|exact Hend].
        exists job. rewrite Hend. split; [exact Hjob | exact Hlive].
      * rewrite fmap_app. apply NoDup_app.
        split; [exact Hunique' | split; [|apply NoDup_singleton]].
        intros j Hj Hj'. apply list_elem_of_singleton in Hj'. subst j.
        exact (Hgone Hj).
  - (* the hourly sweep *)
    cbn [jobs pending]. rewrite (cleanup_unstamped now _ Hunstamped). exact Hsame.
Qed.

Lemma orderly_reaches s s' :
  orderly s -> never_stamped s -> reaches fresh_ids s s' -> orderly s'.
Proof.
  intros Hs Hs' Hreach. induction Hreach as [s | s s1 ev s2 Hreach IH Hfresh Hstep].
  - exact Hs.
  - apply (orderly_step s1 ev s2); [exact (IH Hs Hs') | | exact Hfresh | exact Hstep].
    exact (never_stamped_reaches fresh_ids s s1 Hs' Hreach).
Qed.

(** C8, as amended.  Let the server be in a state it can reach when no job
    identifier is handed out twice.  Whatever happens next, for every job
    identifier: a record that is absent stays absent or appears in
    progress; the status of a record changes only from processing to
    completed or to failed; a record that is completed or failed is left
    exactly as it is; the list of colleges of a record is only ever
    extended, and only while the record is in progress; and a completed
    record has [articulatedCount] equal to the length of its list. *)
Theorem job_lifecycle s ev s' :
  reachable fresh_ids s -> fresh_ids s ev -> step s ev s' ->
  forall jobId, job_step (jobs s !! jobId) (jobs s' !! jobId).
Proof.
  intros Hreach Hfresh Hstep.
  apply (orderly_step s ev s'); [| | exact Hfresh | exact Hstep].
  - exact (orderly_reaches start s orderly_start never_stamped_start Hreach).
  - exact (never_stamped_reaches fresh_ids start s never_stamped_start Hreach).
Qed.

Lemma step_settle_with u i s :
  is_Some (pending s !! i) -> step s (Settle i) (settle_with u i s).
Proof.
  intros [t Ht]. unfold settle_with. rewrite Ht. apply step_settle. exact Ht.
Qed.

Lemma reaches_settle_with allowed u i k s0 s :
  (forall s', allowed s' (Settle i)) ->
  reaches allowed s0 s ->
  reaches allowed s0 (Nat.iter k (settle_with u i) s).
Proof.
  intros Hallowed Hreach. induction k as [|k IH]; [exact Hreach|].
  change (reaches allowed s0 (settle_with u i (Nat.iter k (settle_with u i) s))).
  generalize dependent (Nat.iter k (settle_with u i) s). intros sk IH.
  unfold settle_with.
  destruct (pending sk !! i) as [t|] eqn:Ht; [|exact IH].
  exact (reaches_step allowed s0 sk (Settle i) _ IH (Hallowed sk)
           (step_settle _ _ _ _ Ht)).
Qed.

(** A job with two partners, followed to one step before its end, to its
    end, and past it. *)
Lemma job_lifecycle_witness :
  let jobId := lit "job1" in
  let submitted := fst (post_process_pdfs valid_body jobId start) in
  let last_await := Nat.iter 7 (settle_with two_partners 0) submitted in
  let done := settle_with two_partners 0 last_await in
  let record := completed_job [lit "Santa Monica College"] 2 (lit "CS 101") in
  let next := Post valid_body (lit "job2") in
  let later := fst (post_process_pdfs valid_body (lit "job2") done) in
  (reachable fresh_ids last_await
   /\ fresh_ids last_await (Settle 0)
   /\ step last_await (Settle 0) done)
  /\ (reachable fresh_ids done
      /\ fresh_ids done next
      /\ step done next later)
  /\ Job.status <$> jobs last_await !! jobId = Some processing
  /\ jobs done !! jobId = Some record
  /\ jobs later !! jobId = Some record
  /\ (forall j, job_step (jobs last_await !! j) (jobs done !! j))
  /\ (forall j, job_step (jobs done !! j) (jobs later !! j)).
Proof.
  intros jobId submitted last_await done record next later.
  assert (reachable fresh_ids submitted) as Hsubmitted.
  { exact (reaches_step fresh_ids start start (Post valid_body jobId) submitted
             (reaches_refl fresh_ids start) (fun _ => eq_refl)
             (step_post start valid_body jobId)). }
  assert (reachable fresh_ids last_await) as Hlast.
  { exact (reaches_settle_with fresh_ids two_partners 0 7 start submitted
             (fun _ => I) Hsubmitted). }
  assert (step last_await (Settle 0) done) as Hsettle.
  { apply step_settle_with.
    apply (bool_decide_unpack (is_Some (pending last_await !! 0%nat))).
    vm_compute. exact I. }
  assert (reachable fresh_ids done) as Hdone.
  { exact (reaches_step fresh_ids start last_await (Settle 0) done Hlast I Hsettle). }
  assert (fresh_ids done next) as Hfresh by (intros _; vm_compute; reflexivity).
  assert (step done next later) as Hpost
    by exact (step_post done valid_body (lit "job2")).
  split; [split; [exact Hlast | split; [exact I | exact Hsettle]]|].
  split; [split; [exact Hdone | split; [exact Hfresh | exact Hpost]]|].
  split; [vm_compute; reflexivity|].
  split; [vm_compute; reflexivity|].
  split; [vm_compute; reflexivity|].
  split.
  - exact (job_lifecycle last_await (Settle 0) done Hlast I Hsettle).
  - exact (job_lifecycle done next later Hdone Hfresh Hpost).
Defined.

(** C8 as stated fails when an identifier is handed out twice: the
    submission that gets the identifier of a completed job again writes
    the initial record over the completed one, so the status goes from
    completed back to processing and the list of colleges is emptied. *)
Lemma reused_identifier_reopens_job :
  let jobId := lit "job1" in
  let submitted := fst (post_process_pdfs valid_body jobId start) in
  let done := Nat.iter 8 (settle_with two_partners 0) submitted in
  let again := fst (post_process_pdfs valid_body jobId done) in
  reachable any_event done
  /\ step done (Post valid_body jobId) again
  /\ jobs done !! jobId
     = Some (completed_job [lit "Santa Monica College"] 2 (lit "CS 101"))
  /\ jobs again !! jobId = Some processing_job
  /\ ~ job_step (jobs done !! jobId) (jobs again !! jobId).
Proof.
  intros jobId submitted done again.
  assert (jobs done !! jobId
          = Some (completed_job [lit "Santa Monica College"] 2 (lit "CS 101")))
    as Hdone by (vm_compute; reflexivity).
  assert (jobs again !! jobId = Some processing_job) as Hagain
    by (vm_compute; reflexivity).
  split; [|split; [exact (step_post done valid_body jobId)|]].
  - apply (reaches_settle_with any_event two_partners 0 8 start submitted
             (fun _ => I)).
    exact (reaches_step any_event start start (Post valid_body jobId) submitted
             (reaches_refl any_event start) I (step_post start valid_body jobId)).
  - split; [exact Hdone|]. split; [exact Hagain|].
    rewrite Hdone, Hagain. intros [(job' & Hafter & Hkept & _) _].
    injection Hafter as <-.
    assert (processing_job
            = completed_job [lit "Santa Monica College"] 2 (lit "CS 101")) as Habsurd
      by (apply Hkept; discriminate).
    discriminate.
Qed.

(** * Further properties *)

(** ** More on the extractor *)

Lemma strip_control_idempotent s : strip_control (strip_control s) = strip_control s.
Proof.
  unfold strip_control. induction s as [|c s IH]; simpl; [reflexivity|].
  destruct (is_control c) eqn:E; simpl; [exact IH|].
  rewrite E. simpl. f_equal. exact IH.
Qed.

Lemma strip_control_free s : Forall (fun c => is_control c = false) (strip_control s).
Proof.
  unfold strip_control. induction s as [|c s IH]; simpl; [constructor|].
  destruct (is_control c) eqn:E; simpl; [exact IH|].
  constructor; assumption.
Qed.

Section Kept.

Variable P : N -> Prop.

Lemma substring_keeps (s : JSString) a b : Forall P s -> Forall P (substring s a b).
Proof. intros H. unfold substring. apply Forall_take, Forall_drop, H. Qed.

Lemma trim_start_keeps s : Forall P s -> Forall P (trim_start s).
Proof.
  induction s as [|c s IH]; simpl; intros H; [constructor|].
  destruct (is_space c); [|exact H]. apply IH. inversion H; assumption.
Qed.

Lemma rev_keeps (s : JSString) : Forall P s -> Forall P (rev s).
Proof.
  rewrite !Forall_forall. intros H c Hc. apply H.
  apply list_elem_of_In. apply in_rev. apply list_elem_of_In. exact Hc.
Qed.

Lemma trim_keeps s : Forall P s -> Forall P (trim s).
Proof.
  intros H. unfold trim, trim_end.
  apply rev_keeps, trim_start_keeps, rev_keeps, trim_start_keeps, H.
Qed.

Lemma extractCollege_keeps s : Forall P s -> Forall P (extractCollege s).
Proof.
  intros H. unfold extractCollege.
  destruct (negb _); [|constructor].
  destruct (negb _); [|constructor].
  apply trim_keeps, substring_keeps, substring_keeps, H.
Qed.

End Kept.

(** X1.  The extractor sees its two inputs through their normalisation
    only, and no string it returns, the college or the articulated text,
    holds a control character. *)
Theorem extract_works_on_normalised_text text course key :
  (forall text' course',
      strip_control text' = strip_control text ->
      strip_control course' = strip_control course ->
      extract text' course' key = extract text course key)
  /\ Forall (fun c => is_control c = false)
       (CourseCheck.college (extract text course key))
  /\ (forall t, CourseCheck.articulatedCourse (extract text course key) = Some t ->
                Forall (fun c => is_control c = false) t).
Proof.
  split; [|split].
  - intros text' course' Htext Hcourse. unfold extract.
    rewrite Htext, Hcourse. reflexivity.
  - assert (CourseCheck.college (extract text course key)
            = extractCollege (strip_control text)) as ->.
    { unfold extract.
      repeat match goal with |- context [if ?b then _ else _] => destruct b end;
        reflexivity. }
    apply extractCollege_keeps, strip_control_free.
  - intros t. unfold extract.
    destruct (negb (indexOf (strip_control text) (strip_control course) =? -1));
      [|discriminate].
    cbv zeta.
    match goal with |- context [indexOf ?s arrow] =>
      destruct (negb (indexOf s arrow =? -1)); [|discriminate]
    end.
    match goal with |- context [if ?b then _ else _] => destruct b end;
      [|discriminate].
    cbn [CourseCheck.articulatedCourse]. intros H. injection H as <-.
    apply trim_keeps, substring_keeps, substring_keeps, strip_control_free.
Qed.



Lemma trim_start_before s c rest :
  is_space c = false -> exists l, trim_start (s ++ c :: rest) = l ++ c :: rest.
Proof.
  intros Hc. induction s as [|d s (l & IH)]; simpl.
  - rewrite Hc. exists []. reflexivity.
  - destruct (is_space d).
    + exists l. exact IH.
    + exists (d :: s). reflexivity.
Qed.

Lemma trim_length s : (length (trim s) <= length s)%nat.
Proof.
  destruct (trim_spec s) as (l & r & Hs & _).
  rewrite Hs at 2. rewrite !length_app. lia.
Qed.

(** The trimmed text keeps the arrow it starts with. *)
Lemma trim_arrow rest : exists rest', trim (arrow ++ rest) = arrow ++ rest'.
Proof.
  unfold trim, trim_end, arrow. cbn [app trim_start].
  change (is_space 226) with false. cbv iota.
  cbn [rev]. rewrite <- !app_assoc. cbn [app].
  destruct (trim_start_before (rev rest) 8224%N [226%N] eq_refl) as (l & ->).
  exists (rev l). rewrite rev_app_distr. reflexivity.
Qed.

(** X3.  The articulated text is present exactly when the verdict is
    articulated; it then starts with the arrow token and is at most 30
    code units long. *)
Theorem articulated_text_shape text course key :
  match CourseCheck.articulatedCourse (extract text course key) with
  | Some t =>
      CourseCheck.isArticulated (extract text course key) = true
      /\ (exists rest, t = arrow ++ rest)
      /\ (length t <= 30)%nat
  | None => CourseCheck.isArticulated (extract text course key) = false
  end.
Proof.
  unfold extract.
  destruct (negb (indexOf (strip_control text) (strip_control course) =? -1));
    [|reflexivity].
  cbv zeta.
  match goal with |- context [indexOf ?s arrow] => set (afterCourse := s) end.
  destruct (index_from_spec arrow afterCourse 0 ltac:(lia))
    as [[Habsent _] | (a & Ha & Hfirst)]; unfold indexOf.
  - rewrite Habsent. reflexivity.
  - rewrite Ha.
    replace (0 + Z.of_nat a =? -1) with false by (symmetry; apply Z.eqb_neq; lia).
    cbn [negb].
    match goal with |- context [if ?b then _ else _] => destruct b end;
      [|reflexivity].
    cbn [CourseCheck.articulatedCourse CourseCheck.isArticulated].
    split; [reflexivity|].
    rewrite substring_spec by lia.
    replace (Z.to_nat (0 + Z.of_nat a + 30 - (0 + Z.of_nat a))) with 30%nat by lia.
    replace (Z.to_nat (0 + Z.of_nat a)) with a by lia.
    split.
    + destruct (occurs_at_drop _ _ _ (proj1 Hfirst)) as (post & ->).
      change (take 30 (arrow ++ post)) with (arrow ++ take 28 post).
      apply trim_arrow.
    + etransitivity; [apply trim_length|]. rewrite length_take. lia.
Qed.

Lemma first_at_empty (s : JSString) : first_at [] s 0.
Proof.
  split; [exists [], s; split; reflexivity | intros j Hj; lia].
Qed.

(** X4.  A course code that normalises to the empty string (one made of
    control characters passes the validation of the submission) is found
    at the very start of any text: the verdict is then that of the first
    arrow of the whole document, whatever course stands before it. *)
Theorem blank_course_matches_first_arrow text course key a :
  strip_control course = [] ->
  first_at arrow (strip_control text) a ->
  (forall phrase,
      In phrase
        [lit "No Course Articulated"; lit "No Comparable Course"; lit "Course(s) Denied"] ->
      ~ occurs phrase (take 30 (drop a (strip_control text)))) ->
  CourseCheck.isArticulated (extract text course key) = true
  /\ CourseCheck.articulatedCourse (extract text course key)
     = Some (trim (take 30 (drop a (strip_control text)))).
Proof.
  intros Hblank Harrow Hnone.
  assert (first_at (strip_control course) (strip_control text) 0) as Hfound
    by (rewrite Hblank; apply first_at_empty).
  rewrite (extract_course_found text course key 0 Hfound). cbv zeta.
  rewrite Hblank. change (drop (0 + length []) (strip_control text)) with (strip_control text).
  rewrite (indexOf_first _ _ _ Harrow).
  replace (Z.of_nat a =? -1) with false by (symmetry; apply Z.eqb_neq; lia).
  cbn [negb]. rewrite substring_spec by lia.
  replace (Z.to_nat (Z.of_nat a + 30 - Z.of_nat a)) with 30%nat by lia.
  rewrite Nat2Z.id.
  match goal with |- context [negb ?b] => destruct b eqn:E end;
    [|split; reflexivity].
  exfalso. apply existsb_exists in E. destruct E as (phrase & Hin & Hinc).
  apply (Hnone phrase Hin). apply includes_occurs. exact Hinc.
Qed.

Lemma blank_course_matches_first_arrow_witness :
  given (Some [1%N]) = true
  /\ strip_control [1%N] = []
  /\ first_at arrow (strip_control sample_unnamed) 21
  /\ CourseCheck.isArticulated (extract sample_unnamed [1%N] (lit "k1")) = true.
Proof.
  assert (first_at arrow (strip_control sample_unnamed) 21) as Harrow
    by (apply first_at_indexOf; reflexivity).
  split; [reflexivity|]. split; [reflexivity|]. split; [exact Harrow|].
  apply (blank_course_matches_first_arrow sample_unnamed [1%N] (lit "k1") 21
           eq_refl Harrow).
  intros phrase Hin. apply absent_indexOf.
  destruct Hin as [<- | [<- | [<- | []]]]; reflexivity.
Defined.

(** ** More on the directory look-up *)

(** X5.  The look-up stops at the first institution whose first name
    variant is the requested name and never reads the entries after it;
    but an institution without a name variant that comes before any match
    makes it throw, even when the requested institution is further down
    the directory. *)
Theorem lookup_reads_up_to_first_match before inst after university :
  Forall (fun i => Institution.names i <> []) before ->
  no_entry_matches before university ->
  (forall first others,
      Institution.names inst = first :: others ->
      NameEntry.name first = university ->
      findUniversityId (before ++ inst :: after) university
      = Ret (Some (Institution.id inst)))
  /\ (Institution.names inst = [] ->
      findUniversityId (before ++ inst :: after) university
      = Throw undefined_name_error).
Proof.
  intros Hnamed Hno. split.
  - intros first others Hnames Hname.
    exact (findUniversityId_first_match before inst after first others university
             Hnamed Hno Hnames Hname).
  - intros Hnames. induction before as [|i before IH]; simpl.
    + rewrite Hnames. reflexivity.
    + inversion Hnamed as [|? ? Hi Hrest]; subst.
      destruct (Institution.names i) as [|f o] eqn:E; [congruence|].
      rewrite bool_decide_eq_false_2.
      * apply IH; [exact Hrest|].
        intros i' f' Hin Hhead. apply (Hno i' f'); [right; exact Hin | exact Hhead].
      * apply (Hno i f); [left; reflexivity | rewrite E; reflexivity].
Qed.

Lemma lookup_reads_up_to_first_match_witness :
  Forall (fun i => Institution.names i <> []) [zero_id]
  /\ no_entry_matches [zero_id] (lit "UC Davis")
  /\ findUniversityId ([zero_id] ++ nameless :: [ucla]) (lit "UC Davis")
     = Throw undefined_name_error.
Proof.
  assert (Forall (fun i => Institution.names i <> []) [zero_id]) as Hnamed
    by (repeat constructor; discriminate).
  assert (no_entry_matches [zero_id] (lit "UC Davis")) as Hno.
  { intros inst first [<- | []] Hhead. injection Hhead as <-. discriminate. }
  split; [exact Hnamed|]. split; [exact Hno|].
  exact (proj2 (lookup_reads_up_to_first_match [zero_id] nameless [ucla]
                  (lit "UC Davis") Hnamed Hno) eq_refl).
Defined.

(** ** More on a whole run *)

Section WholeRun.

Context {W : Type} (world : World W).

(** X6.  [!universityId] is also true of the identifier 0: when the
    institution the look-up stops at has [id] 0, the job fails with the
    not-found message although the directory lists the institution, and
    no agreements are requested. *)
Theorem zero_identifier_is_not_found jobId university major course w w1 jobs
    directory before inst after first others :
  world _ GetInstitutions w = (Resolved directory, w1) ->
  Axios.data directory = before ++ inst :: after ->
  Forall (fun i => Institution.names i <> []) before ->
  no_entry_matches before university ->
  Institution.names inst = first :: others ->
  NameEntry.name first = university ->
  Institution.id inst = 0 ->
  exec world (processUniversityPDFs jobId university major course) w jobs
  = (Resolved tt, w1, <[jobId := failed_job (not_found_error university)]> jobs).
Proof.
  intros Hdir Hdata Hnamed Hno Hnames Hname Hid.
  unfold processUniversityPDFs.
  rewrite exec_try_catch, exec_bind, exec_jobs_set, exec_bind, exec_await, Hdir.
  rewrite exec_bind, Hdata.
  rewrite (findUniversityId_first_match _ _ _ _ _ _ Hnamed Hno Hnames Hname), Hid.
  cbn [exec falsy_id Z.eqb jobs_set]. rewrite insert_insert_eq. reflexivity.
Qed.

(** X7.  When the request for the directory is rejected, the job fails
    with the message of the rejection and an empty list, no other request
    is made and no other record is touched. *)
Theorem directory_failure_fails_job jobId university major course w w1 jobs e :
  world _ GetInstitutions w = (Rejected e, w1) ->
  exec world (processUniversityPDFs jobId university major course) w jobs
  = (Resolved tt, w1, <[jobId := failed_job e]> jobs).
Proof.
  intros Hdir. unfold processUniversityPDFs.
  rewrite exec_try_catch, exec_bind, exec_jobs_set, exec_bind, exec_await, Hdir.
  cbn [exec jobs_set]. rewrite insert_insert_eq. reflexivity.
Qed.

(** X8.  When the institution is resolved but the request for its
    agreements is rejected, the job fails with the message of that
    rejection, before any partner is looked at. *)
Theorem agreements_failure_fails_job jobId university major course w w1 w2 jobs
    directory universityId e :
  world _ GetInstitutions w = (Resolved directory, w1) ->
  findUniversityId (Axios.data directory) university = Ret (Some universityId) ->
  universityId <> 0 ->
  world _ (GetAgreements universityId) w1 = (Rejected e, w2) ->
  exec world (processUniversityPDFs jobId university major course) w jobs
  = (Resolved tt, w2, <[jobId := failed_job e]> jobs).
Proof.
  intros Hdir Hfound Hid Hagr. unfold processUniversityPDFs.
  rewrite exec_try_catch, exec_bind, exec_jobs_set, exec_bind, exec_await, Hdir.
  rewrite exec_bind, Hfound. cbn [exec falsy_id].
  apply Z.eqb_neq in Hid. rewrite Hid. cbn [from_option id].
  rewrite exec_bind, exec_updateJobProgress, lookup_insert_eq, insert_insert_eq.
  rewrite exec_bind, exec_await, Hagr.
  cbn [exec jobs_set]. rewrite insert_insert_eq. reflexivity.
Qed.

(** X9.  A run never rejects and never leaves its job in progress: it
    ends with the record of its job, and of no other job, replaced by a
    failed record (empty list, an error message) or by a completed record
    (no error, [articulatedCount] the length of the list). *)
Theorem run_ends_settled jobId university major course w jobs :
  exists job w',
    exec world (processUniversityPDFs jobId university major course) w jobs
      = (Resolved tt, w', <[jobId := job]> jobs)
    /\ well_formed job
    /\ Job.status job <> processing.
Proof.
  destruct (exec_processUniversityPDFs world jobId university major course w jobs)
    as (job & w' & Hexec & Hend).
  exists job, w'. split; [exact Hexec|].
  destruct Hend as [[e ->] | (directory & w1 & universityId & agreements & w2
                              & colleges & _ & _ & _ & _ & ->)].
  - split; [|discriminate]. split; [reflexivity|]. cbn.
    repeat split; eauto.
  - split; [|discriminate]. split; [reflexivity|]. cbn.
    repeat split; eauto.
Qed.


(** X11.  The loop over a list of partners put end to end is the loop
    over the first list followed by the loop over the second, which takes
    over the array and the count: partners are handled in the order
    listed, and one listed twice is handled twice. *)
Theorem loop_composes jobId universityId major course total ids1 ids2 :
  forall acc n w jobs,
    exec world
      (processColleges jobId universityId major course total (ids1 ++ ids2) acc n)
      w jobs
    = match exec world
              (processColleges jobId universityId major course total ids1 acc n)
              w jobs with
      | (Resolved (acc1, n1), w1, jobs1) =>
          exec world
            (processColleges jobId universityId major course total ids2 acc1 n1)
            w1 jobs1
      | (Rejected e, w1, jobs1) => (Rejected e, w1, jobs1)
      end.
Proof.
  induction ids1 as [|collegeId rest IH]; intros acc n w jobs.
  - reflexivity.
  - cbn [app processColleges]. rewrite !exec_bind.
    destruct (exec world (processCollege universityId major course collegeId acc) w jobs)
      as [[[acc' | e] w1] jobs1]; [|reflexivity].
    rewrite !exec_bind, exec_updateJobProgress. apply IH.
Qed.

(** X12.  In the record of a job that completed, [articulatedCount] is
    at most [totalProcessed]: no partner is counted as articulating more
    than once for one agreement. *)
Theorem articulated_at_most_processed jobId university major course w jobs job :
  snd (exec world (processUniversityPDFs jobId university major course) w jobs)
    !! jobId = Some job ->
  Job.status job = completed ->
  exists articulated total,
    Job.articulatedCount job = Some articulated
    /\ Job.totalProcessed job = Some total
    /\ (articulated <= total)%nat.
Proof.
  intros Hjob Hcompleted.
  destruct (exec_processUniversityPDFs world jobId university major course w jobs)
    as (job' & w' & Hexec & Hend).
  rewrite Hexec in Hjob. cbn [snd] in Hjob.
  rewrite lookup_insert_eq in Hjob. injection Hjob as ->.
  destruct Hend as [[e ->] | (directory & w1 & universityId & agreements & w2
                              & colleges & _ & _ & _ & Hloop & ->)];
    [discriminate|].
  cbv zeta in Hloop. destruct Hloop as (jobs2 & jobs3 & Hloop).
  match type of Hloop with
  | exec world (processColleges ?j ?u ?m ?c ?t ?ids ?a ?n) ?w0 ?js = _ =>
      destruct (exec_processColleges_bound world j u m c t ids a n w0 js)
        as (more & w'' & jobs'' & Hbound & Hlength)
  end.
  rewrite Hbound in Hloop. injection Hloop as <- _ _.
  exists (length more), (length (Axios.data agreements)).
  split; [reflexivity | split; [reflexivity|]].
  rewrite length_map in Hlength. exact Hlength.
Qed.

End WholeRun.

Lemma zero_identifier_is_not_found_witness :
  let world := stateless (directory_only [zero_id]) in
  no_entry_matches [] (lit "UCLA")
  /\ Institution.id zero_id = 0
  /\ exec world
       (processUniversityPDFs (lit "job1") (lit "UCLA") (lit "Computer Science")
          (lit "CS 101")) tt ∅
     = (Resolved tt, tt,
        <[lit "job1" := failed_job (not_found_error (lit "UCLA"))]> ∅).
Proof.
  intros world.
  assert (no_entry_matches [] (lit "UCLA")) as Hno by (intros inst first []).
  split; [exact Hno|]. split; [reflexivity|].
  exact (zero_identifier_is_not_found world (lit "job1") (lit "UCLA")
           (lit "Computer Science") (lit "CS 101") tt tt ∅
           {| Axios.status := 200; Axios.data := [zero_id] |} [] zero_id []
           {| NameEntry.name := lit "UCLA" |} []
           eq_refl eq_refl (List.Forall_nil _) Hno eq_refl eq_refl eq_refl).
Defined.

Lemma directory_failure_fails_job_witness :
  let world := stateless offline in
  world _ GetInstitutions tt = (Rejected network_error, tt)
  /\ exec world
       (processUniversityPDFs (lit "job1") (lit "UCLA") (lit "Computer Science")
          (lit "CS 101")) tt ∅
     = (Resolved tt, tt, <[lit "job1" := failed_job network_error]> ∅).
Proof.
  intros world. split; [reflexivity|].
  exact (directory_failure_fails_job world (lit "job1") (lit "UCLA")
           (lit "Computer Science") (lit "CS 101") tt tt ∅ network_error eq_refl).
Defined.

Lemma agreements_failure_fails_job_witness :
  let world := stateless (directory_only [ucla]) in
  findUniversityId [ucla] (lit "UCLA") = Ret (Some 1)
  /\ world _ (GetAgreements 1) tt = (Rejected network_error, tt)
  /\ exec world
       (processUniversityPDFs (lit "job1") (lit "UCLA") (lit "Computer Science")
          (lit "CS 101")) tt ∅
     = (Resolved tt, tt, <[lit "job1" := failed_job network_error]> ∅).
Proof.
  intros world. split; [reflexivity|]. split; [reflexivity|].
  assert (1 <> 0) as Hid by discriminate.
  exact (agreements_failure_fails_job world (lit "job1") (lit "UCLA")
           (lit "Computer Science") (lit "CS 101") tt tt tt ∅
           {| Axios.status := 200; Axios.data := [ucla] |} 1 network_error
           eq_refl eq_refl Hid eq_refl).
Defined.


Lemma articulated_at_most_processed_witness :
  let world := scenario [ucla] sample_accepted in
  let final :=
    exec world
      (processUniversityPDFs (lit "job1") (lit "UCLA") (lit "Computer Science")
         (lit "CS 101")) tt ∅ in
  let job := completed_job [lit "Santa Monica College"] 1 (lit "CS 101") in
  snd final !! lit "job1" = Some job
  /\ Job.status job = completed
  /\ exists articulated total,
       Job.articulatedCount job = Some articulated
       /\ Job.totalProcessed job = Some total
       /\ (articulated <= total)%nat.
Proof.
  intros world final job.
  assert (snd final !! lit "job1" = Some job) as Hjob by (vm_compute; reflexivity).
  split; [exact Hjob|]. split; [reflexivity|].
  exact (articulated_at_most_processed world (lit "job1") (lit "UCLA")
           (lit "Computer Science") (lit "CS 101") tt ∅ job Hjob eq_refl).
Defined.

(** ** More on one partner *)

(** X13.  Of the reports of a partner only the first one for the major
    is used: the reports before it are passed over, the ones after it are
    never looked at, also when its document cannot be fetched or does not
    articulate the course. *)
Theorem only_first_report_counts before report after major course acc :
  Forall (fun r => Report.label r <> major) before ->
  Report.label report = major ->
  scanReports (before ++ report :: after) major course acc
  = scanReports [report] major course acc.
Proof.
  intros Hbefore Hlabel.
  assert (forall rest,
             List.find (fun r => bool_decide (Report.label r = major))
               (before ++ report :: rest) = Some report) as Hfind.
  { intros rest. induction Hbefore as [|r before Hr _ IH]; simpl.
    - rewrite bool_decide_eq_true_2 by exact Hlabel. reflexivity.
    - rewrite bool_decide_eq_false_2 by exact Hr. exact IH. }
  rewrite (scanReports_some _ _ _ _ _ (Hfind after)).
  symmetry. apply scanReports_some.
  simpl. rewrite bool_decide_eq_true_2 by exact Hlabel. reflexivity.
Qed.

Lemma only_first_report_counts_witness :
  let physics := {| Report.label := lit "Physics"; Report.key := lit "k0" |} in
  let first := {| Report.label := lit "Computer Science"; Report.key := lit "k1" |} in
  let second := {| Report.label := lit "Computer Science"; Report.key := lit "k2" |} in
  Forall (fun r => Report.label r <> lit "Computer Science") [physics]
  /\ Report.label first = lit "Computer Science"
  /\ scanReports ([physics] ++ first :: [second]) (lit "Computer Science")
       (lit "CS 101") []
     = scanReports [first] (lit "Computer Science") (lit "CS 101") [].
Proof.
  intros physics first second.
  assert (Forall (fun r => Report.label r <> lit "Computer Science") [physics])
    as Hbefore by (repeat constructor; discriminate).
  split; [exact Hbefore|]. split; [reflexivity|].
  exact (only_first_report_counts [physics] first [second] (lit "Computer Science")
           (lit "CS 101") [] Hbefore eq_refl).
Defined.

(** ** More on the job map *)

(** X14.  [updateJobProgress] on an identifier the map does not hold
    changes nothing, and in particular creates no record.  On an
    identifier the map holds it replaces the progress text and nothing
    else, of that record and of no other; and of two updates in a row the
    second is the one that shows. *)
Theorem updateJobProgress_effect (jobId progress : JSString) (js : JobMap) :
  let js' := snd (segment (updateJobProgress jobId progress) js) in
  fst (segment (updateJobProgress jobId progress) js) = Settled (Resolved tt)
  /\ (js !! jobId = None -> js' = js)
  /\ (forall job,
        js !! jobId = Some job ->
        exists job',
          js' !! jobId = Some job'
          /\ Job.progress job' = progress
          /\ Job.status job' = Job.status job
          /\ Job.applicableColleges job' = Job.applicableColleges job
          /\ Job.error job' = Job.error job
          /\ Job.totalProcessed job' = Job.totalProcessed job
          /\ Job.articulatedCount job' = Job.articulatedCount job
          /\ Job.summary job' = Job.summary job
          /\ Job.createdAt job' = Job.createdAt job)
  /\ (forall j, j <> jobId -> js' !! j = js !! j)
  /\ (forall later,
        snd (segment (run updateJobProgress jobId progress then
                      updateJobProgress jobId later) js)
        = snd (segment (updateJobProgress jobId later) js)).
Proof.
  unfold updateJobProgress. cbn [segment bind].
  destruct (js !! jobId) as [job|] eqn:Hjob; cbn [jobs_set segment bind fst snd].
  - split; [reflexivity|]. split; [discriminate|]. split; [|split].
    + intros job0 H. injection H as <-.
      exists (Job.with_progress job progress).
      rewrite lookup_insert_eq. repeat split.
    + intros j Hj. apply lookup_insert_ne. congruence.
    + intros later. rewrite lookup_insert_eq. cbn [jobs_set segment snd].
      rewrite insert_insert_eq. reflexivity.
  - split; [reflexivity|]. split; [reflexivity|]. split; [discriminate|].
    split; [reflexivity|].
    intros later. rewrite Hjob. reflexivity.
Qed.

(** What the sweep leaves under an identifier. *)
Lemma cleanup_lookup (now : Z) (js : JobMap) (jobId : JSString) :
  cleanup now js !! jobId
  = match js !! jobId with
    | Some job => if expired (now - 60 * 60 * 1000) job then None else Some job
    | None => None
    end.
Proof.
  unfold cleanup. set (oneHourAgo := now - 60 * 60 * 1000).
  assert (forall entries (m : JobMap),
             foldl (fun m entry =>
                      if expired oneHourAgo (snd entry) then delete (fst entry) m else m)
                   m entries !! jobId
             = if existsb (fun entry => bool_decide (fst entry = jobId)
                                        && expired oneHourAgo (snd entry)) entries
               then None else m !! jobId) as Hfold.
  { induction entries as [|[j job] entries IH]; intros m; simpl; [reflexivity|].
    rewrite IH. destruct (existsb _ entries); [rewrite orb_true_r; reflexivity|].
    rewrite orb_false_r. destruct (expired oneHourAgo job).
    - rewrite andb_true_r. destruct (bool_decide_reflect (j = jobId)) as [-> | Hne].
      + apply lookup_delete_eq.
      + apply lookup_delete_ne. exact Hne.
    - rewrite andb_false_r. reflexivity. }
  rewrite Hfold.
  destruct (existsb _ (map_to_list js)) eqn:E.
  - apply existsb_exists in E. destruct E as ([j job] & Hin & Hcond).
    apply andb_true_iff in Hcond. cbn [fst snd] in Hcond.
    destruct Hcond as [Hj Hexpired]. apply bool_decide_eq_true in Hj. subst j.
    apply list_elem_of_In, elem_of_map_to_list in Hin.
    rewrite Hin, Hexpired. reflexivity.
  - destruct (js !! jobId) as [job|] eqn:Hjob; [|reflexivity].
    destruct (expired oneHourAgo job) eqn:Hexpired; [|reflexivity].
    exfalso. assert (existsb (fun entry => bool_decide (fst entry = jobId)
                                           && expired oneHourAgo (snd entry))
                       (map_to_list js) = true) as E'; [|congruence].
    apply existsb_exists. exists (jobId, job). split.
    + apply list_elem_of_In, elem_of_map_to_list. exact Hjob.
    + cbn [fst snd]. rewrite Hexpired, bool_decide_eq_true_2; reflexivity.
Qed.

(** X15.  On any job map, stamped or not, the sweep removes exactly the
    records whose [createdAt] is a number other than 0 and more than an
    hour (3 600 000 ms) before [now]; every other record stays as it is,
    and no record appears. *)
Theorem sweep_removes_exactly_stale (now : Z) (js : JobMap) (jobId : JSString) :
  (forall job t,
      js !! jobId = Some job -> Job.createdAt job = Some t ->
      t <> 0 -> t < now - 3600000 ->
      cleanup now js !! jobId = None)
  /\ (forall job,
        js !! jobId = Some job ->
        Job.createdAt job = None \/ Job.createdAt job = Some 0
        \/ (exists t, Job.createdAt job = Some t /\ now - 3600000 <= t) ->
        cleanup now js !! jobId = Some job)
  /\ (js !! jobId = None -> cleanup now js !! jobId = None).
Proof.
  rewrite cleanup_lookup. split; [|split].
  - intros job t -> Hstamp Hnonzero Hold. unfold expired. rewrite Hstamp.
    apply Z.eqb_neq in Hnonzero. rewrite Hnonzero.
    replace (t <? now - 60 * 60 * 1000) with true
      by (symmetry; apply Z.ltb_lt; lia).
    reflexivity.
  - intros job -> Hkeep. unfold expired.
    destruct Hkeep as [-> | [-> | (t & -> & Hrecent)]]; [reflexivity..|].
    replace (t <? now - 60 * 60 * 1000) with false
      by (symmetry; apply Z.ltb_ge; lia).
    rewrite andb_false_r. reflexivity.
  - intros ->. reflexivity.
Qed.

Lemma sweep_removes_exactly_stale_witness :
  let js : JobMap :=
    <[lit "old" := stamped 1000]>
      (<[lit "zero" := stamped 0]> (<[lit "new" := processing_job]> ∅)) in
  cleanup 3602000 js !! lit "old" = None
  /\ cleanup 3602000 js !! lit "zero" = Some (stamped 0)
  /\ cleanup 3602000 js !! lit "new" = Some processing_job
  /\ cleanup 3602000 js !! lit "none" = None.
Proof.
  intros js.
  split; [|split; [|split]].
  - apply (proj1 (sweep_removes_exactly_stale 3602000 js (lit "old"))
             (stamped 1000) 1000); [reflexivity | reflexivity | discriminate | reflexivity].
  - apply (proj1 (proj2 (sweep_removes_exactly_stale 3602000 js (lit "zero")))
             (stamped 0)); [reflexivity | right; left; reflexivity].
  - apply (proj1 (proj2 (sweep_removes_exactly_stale 3602000 js (lit "new")))
             processing_job); [reflexivity | left; reflexivity].
  - apply (proj2 (proj2 (sweep_removes_exactly_stale 3602000 js (lit "none")))).
    reflexivity.
Defined.

(** ** More on the handlers *)

Lemma given_spec v : given v = false <-> v = None \/ v = Some [].
Proof.
  destruct v as [[|c s]|]; simpl; split; intros H; try discriminate; auto;
    destruct H as [H | H]; discriminate.
Qed.

(** On a body whose three properties are missing or strings, a submission
    is refused with a 400 exactly when one of [university], [major] and
    [course] is missing or is the empty string; a refused submission
    leaves the job map and the pending activations as they were, and any
    other submission is answered with the job identifier. *)
Lemma incomplete_submission_refused body jobId s :
  (snd (post_process_pdfs body jobId s) = BadRequest
   <-> (university body = None \/ university body = Some [])
       \/ (major body = None \/ major body = Some [])
       \/ (course body = None \/ course body = Some []))
  /\ (snd (post_process_pdfs body jobId s) = BadRequest ->
      fst (post_process_pdfs body jobId s) = s)
  /\ (snd (post_process_pdfs body jobId s) <> BadRequest ->
      snd (post_process_pdfs body jobId s) = Started jobId).
Proof.
  rewrite <- !given_spec. unfold post_process_pdfs.
  destruct (first_segment jobId (default [] (university body))
              (default [] (major body)) (default [] (course body)) (jobs s))
    as [k ->].
  destruct (given (university body)), (given (major body)), (given (course body));
    cbn [negb orb fst snd];
    (split; [split; [intros H; try discriminate; auto
                    | intros [H | [H | H]]; try discriminate; reflexivity]
            | split; [intros H; try discriminate; reflexivity
                     | intros H; try reflexivity; exfalso; apply H; reflexivity]]).
Qed.

Lemma falsy_spec v : Value.truthy v = false <-> falsy v.
Proof.
  unfold falsy. split.
  - destruct v as [| |[]|[]| [|c s] | |]; simpl; intros H;
      try discriminate; eauto 8.
  - intros [-> | [-> | [-> | [[sign ->] | [-> | ->]]]]]; reflexivity.
Qed.

Lemma truthy_of_field v : Value.truthy (of_field v) = given v.
Proof. destruct v; reflexivity. Qed.

(** X16.  What lines 19-25 do with any [req.body].  The destructuring of
    line 19 throws exactly when there is no body ([undefined]) or the
    body is [null], and then no answer is sent by this handler.
    Otherwise the request is refused with the 400 exactly when one of
    the properties [university], [major] and [course] of the body is
    falsy: missing, [null], [false], zero, [NaN] or the empty string;
    a property that is any other value, a string or not, lets the
    request through.  When the body is there and the three properties
    are missing or strings, a refused request leaves the job map and the
    pending activations as they were, and a request that is not refused
    is answered with the job identifier. *)
Theorem submission_guard body :
  (post_guard body = Raises <-> body = Value.undefined \/ body = Value.null)
  /\ (post_guard body = Refuses <->
      post_guard body <> Raises
      /\ (falsy (Value.get body (lit "university"))
          \/ falsy (Value.get body (lit "major"))
          \/ falsy (Value.get body (lit "course"))))
  /\ (forall university major course,
        post_guard body = Proceeds university major course ->
        university = Value.get body (lit "university")
        /\ major = Value.get body (lit "major")
        /\ course = Value.get body (lit "course"))
  /\ (forall b jobId s,
        typed body b ->
        match post_guard body with
        | Raises => False
        | Refuses => post_process_pdfs b jobId s = (s, BadRequest)
        | Proceeds _ _ _ => snd (post_process_pdfs b jobId s) = Started jobId
        end).
Proof.
  assert (forall b, b <> Value.undefined -> b <> Value.null ->
            post_guard b
            = if negb (Value.truthy (Value.get b (lit "university")))
                 || negb (Value.truthy (Value.get b (lit "major")))
                 || negb (Value.truthy (Value.get b (lit "course")))
              then Refuses
              else Proceeds (Value.get b (lit "university"))
                     (Value.get b (lit "major")) (Value.get b (lit "course")))
    as Hguard.
  { intros b Hu Hn. destruct b; try reflexivity; congruence. }
  split; [|split; [|split]].
  - destruct body; unfold post_guard;
      try (split; [intros _; auto | reflexivity]);
      (split; [|intros [H | H]; discriminate]);
      match goal with |- context [if ?c then _ else _] => destruct c end;
      discriminate.
  - rewrite <- !falsy_spec.
    destruct body;
      try (split; [discriminate | intros [H _]; exfalso; apply H; reflexivity]);
      (rewrite Hguard by discriminate;
       destruct (Value.truthy (Value.get _ (lit "university"))),
                (Value.truthy (Value.get _ (lit "major"))),
                (Value.truthy (Value.get _ (lit "course")));
       cbn [negb orb];
       (split; [intros H; first [discriminate | split; [discriminate | auto]]
               | intros [_ [H | [H | H]]]; try discriminate; reflexivity])).
  - intros u m c.
    destruct body; try discriminate;
      (rewrite Hguard by discriminate;
       match goal with |- context [if ?c then _ else _] => destruct c end;
       [discriminate | intros H; injection H as <- <- <-; auto]).
  - intros b jobId s (Hu & Hn & Huniversity & Hmajor & Hcourse).
    rewrite (Hguard body Hu Hn), Huniversity, Hmajor, Hcourse, !truthy_of_field.
    destruct (incomplete_submission_refused b jobId s) as (_ & Hkept & Hstarted).
    revert Hkept Hstarted. unfold post_process_pdfs.
    destruct (negb (given (university b)) || negb (given (major b))
              || negb (given (course b))).
    + reflexivity.
    + intros _ Hstarted. apply Hstarted.
      destruct (segment _ _). discriminate.
Qed.

(** No body, a body whose [major] is the number zero, and a body that
    gives [course] twice. *)
Lemma submission_guard_witness :
  post_guard Value.undefined = Raises
  /\ post_guard zero_major = Refuses
  /\ typed valid_json valid_body
  /\ post_guard valid_json
     = Proceeds (Value.string (lit "UCLA")) (Value.string (lit "Computer Science"))
         (Value.string (lit "CS 101"))
  /\ snd (post_process_pdfs valid_body (lit "job1") start) = Started (lit "job1").
Proof.
  assert (typed valid_json valid_body) as Htyped.
  { repeat split; try discriminate; reflexivity. }
  split; [exact (proj2 (proj1 (submission_guard Value.undefined)) (or_introl eq_refl))|].
  split.
  { apply (proj2 (proj1 (proj2 (submission_guard zero_major)))).
    split; [discriminate|].
    right; left. right; right; right; left. exists false. reflexivity. }
  split; [exact Htyped|].
  split; [reflexivity|].
  exact (proj2 (proj2 (proj2 (submission_guard valid_json)))
           valid_body (lit "job1") start Htyped).
Defined.

(** X17.  An accepted submission writes the record of a job in progress
    under its identifier whatever the map held there, so one that reuses
    the identifier of a completed job takes that job back to processing
    with an empty list; it touches no other record and adds one pending
    activation, waiting for the directory, behind those already
    pending. *)
Theorem submission_resets_record body jobId s :
  given (university body) = true ->
  given (major body) = true ->
  given (course body) = true ->
  jobs (fst (post_process_pdfs body jobId s)) = <[jobId := processing_job]> (jobs s)
  /\ exists k,
       pending (fst (post_process_pdfs body jobId s))
       = pending s ++ [{| task_jobId := jobId;
                          task_awaiting := GetInstitutions;
                          task_resume := k |}].
Proof.
  intros Hu Hm Hc. unfold post_process_pdfs.
  destruct (first_segment jobId (default [] (university body))
              (default [] (major body)) (default [] (course body)) (jobs s))
    as [k Hk].
  rewrite Hu, Hm, Hc, Hk. cbn [negb orb fst jobs pending suspend].
  split; [reflexivity | exists k; reflexivity].
Qed.

Lemma submission_resets_record_witness :
  let s :=
    {| jobs := <[lit "job1" := completed_job [lit "Santa Monica College"] 1
                                 (lit "CS 101")]> ∅;
       pending := [] |} in
  let s' := fst (post_process_pdfs valid_body (lit "job1") s) in
  Job.status <$> jobs s !! lit "job1" = Some completed
  /\ jobs s' = <[lit "job1" := processing_job]> (jobs s)
  /\ jobs s' !! lit "job1" = Some processing_job
  /\ length (pending s') = 1%nat.
Proof.
  intros s s'.
  destruct (submission_resets_record valid_body (lit "job1") s eq_refl eq_refl eq_refl)
    as [Hjobs [k Hpending]].
  split; [reflexivity|]. split; [exact Hjobs|]. split.
  - fold s' in Hjobs. rewrite Hjobs. apply lookup_insert_eq.
  - fold s' in Hpending. rewrite Hpending. reflexivity.
Defined.

Lemma well_formed_with_progress job progress :
  well_formed job -> well_formed (Job.with_progress job progress).
Proof. destruct job. exact (fun H => H). Qed.

Lemma well_kept_start : well_kept start.
Proof.
  split; [|constructor]. intros jobId job H.
  cbn [start jobs] in H. rewrite lookup_empty in H. discriminate.
Qed.

Lemma well_formed_segment (p : Prog unit) (js : JobMap) :
  obeys (fun _ r => forall job, r = Some job -> well_formed job)
    (fun _ job => well_formed job) p ->
  (forall jobId job, js !! jobId = Some job -> well_formed job) ->
  (forall jobId job, snd (segment p js) !! jobId = Some job -> well_formed job)
  /\ match fst (segment p js) with
     | Waiting e k =>
         forall o,
           obeys (fun _ r => forall job, r = Some job -> well_formed job)
             (fun _ job => well_formed job) (k o)
     | Settled _ => True
     end.
Proof.
  apply (segment_obeys (fun _ r => forall job, r = Some job -> well_formed job)
           (fun _ job => well_formed job)).
  intros jobId job H job' Heq. injection Heq as <-. exact H.
Qed.

Lemma well_kept_step s ev s' : well_kept s -> step s ev s' -> well_kept s'.
Proof.
  intros [Hjobs Htasks] Hstep.
  destruct Hstep as [s body jobId | s jobId | s i t o Ht | s now].
  - unfold post_process_pdfs.
    destruct (negb _ || negb _ || negb _); [split; assumption|].
    destruct (well_formed_segment
                (processUniversityPDFs jobId (default [] (university body))
                   (default [] (major body)) (default [] (course body)))
                (jobs s)) as [Hjobs' Hr].
    { apply obeys_processUniversityPDFs.
      - intros job progress H. apply well_formed_with_progress, (H job). reflexivity.
      - split; [reflexivity|]. cbn. repeat split.
      - intros colleges n. split; [reflexivity|]. cbn. repeat split; eauto.
      - intros e. split; [reflexivity|]. cbn. repeat split; eauto. }
    { exact Hjobs. }
    destruct (segment _ (jobs s)) as [r jobs']. cbn [fst snd jobs pending] in *.
    split; [exact Hjobs'|].
    destruct r as [o | X e k]; cbn [suspend]; [exact Htasks|].
    apply Forall_app. split; [exact Htasks|]. constructor; [exact Hr | constructor].
  - split; assumption.
  - unfold settle.
    pose proof (Forall_lookup_1 _ _ _ _ Htasks Ht o) as Hresume.
    destruct (well_formed_segment (task_resume t o) (jobs s) Hresume Hjobs)
      as [Hjobs' Hr].
    destruct (segment _ (jobs s)) as [r jobs']. cbn [fst snd jobs pending] in *.
    split; [exact Hjobs'|].
    destruct r as [o' | X e k]; cbn [suspend]; [apply Forall_delete; exact Htasks|].
    apply Forall_app. split; [apply Forall_delete; exact Htasks|].
    constructor; [exact Hr | constructor].
  - split; cbn [jobs pending]; [|exact Htasks].
    intros jobId job. rewrite cleanup_lookup.
    destruct (jobs s !! jobId) as [job0|] eqn:Hjob; [|discriminate].
    destruct (expired _ job0); [discriminate|].
    intros H. injection H as <-. exact (Hjobs jobId job0 Hjob).
Qed.

Lemma well_kept_reaches allowed s s' :
  well_kept s -> reaches allowed s s' -> well_kept s'.
Proof.
  intros Hs Hreach. induction Hreach as [s | s s1 ev s2 _ IH _ Hstep].
  - exact Hs.
  - exact (well_kept_step _ _ _ (IH Hs) Hstep).
Qed.

(** X18.  Whatever the events, also with identifiers handed out twice,
    every record a poll returns has one of three shapes: in progress
    (empty list, no error, no totals), completed (no error, a total, a
    summary, [articulatedCount] the length of the list) or failed (empty
    list, an error message, no totals); none has a [createdAt]. *)
Theorem polled_record_is_well_formed allowed s jobId job :
  reachable allowed s ->
  get_job jobId s = JobJson job ->
  well_formed job.
Proof.
  intros Hreach Hpoll.
  destruct (well_kept_reaches allowed start s well_kept_start Hreach) as [Hjobs _].
  unfold get_job in Hpoll.
  destruct (jobs s !! jobId) as [job'|] eqn:Hjob; [|discriminate].
  injection Hpoll as <-. exact (Hjobs jobId job' Hjob).
Qed.

Lemma polled_record_is_well_formed_witness :
  let s := fst (post_process_pdfs valid_body (lit "job1") start) in
  reachable any_event s
  /\ get_job (lit "job1") s = JobJson processing_job
  /\ well_formed processing_job.
Proof.
  intros s.
  assert (reachable any_event s) as Hreach.
  { exact (reaches_step any_event start start (Post valid_body (lit "job1")) s
             (reaches_refl any_event start) I
             (step_post start valid_body (lit "job1"))). }
  assert (get_job (lit "job1") s = JobJson processing_job) as Hpoll by reflexivity.
  split; [exact Hreach|]. split; [exact Hpoll|].
  exact (polled_record_is_well_formed any_event s (lit "job1") processing_job
           Hreach Hpoll).
Defined.

(** X19.  As long as no identifier is handed out twice, every pending
    activation belongs to a job whose record is in the map and in
    progress, and no two of them belong to the same job: once a job is
    completed or failed, nothing is left to run for it. *)
Theorem no_activation_outlives_its_job s :
  reachable fresh_ids s ->
  NoDup (task_jobId <$> pending s)
  /\ forall t, t ∈ pending s ->
               exists job,
                 jobs s !! task_jobId t = Some job
                 /\ Job.status job = processing.
Proof.
  intros Hreach.
  destruct (orderly_reaches start s orderly_start never_stamped_start Hreach)
    as (Htasks & Hunique & _).
  split; [exact Hunique|]. intros t Hin.
  rewrite Forall_forall in Htasks.
  destruct (Htasks t Hin) as [(job & Hjob & Hstatus & _) _].
  exists job. split; assumption.
Qed.

Lemma no_activation_outlives_its_job_witness :
  let s := fst (post_process_pdfs valid_body (lit "job1") start) in
  reachable fresh_ids s
  /\ NoDup (task_jobId <$> pending s)
  /\ forall t, t ∈ pending s ->
               exists job,
                 jobs s !! task_jobId t = Some job
                 /\ Job.status job = processing.
Proof.
  intros s.
  assert (reachable fresh_ids s) as Hreach.
  { exact (reaches_step fresh_ids start start (Post valid_body (lit "job1")) s
             (reaches_refl fresh_ids start) (fun _ => eq_refl)
             (step_post start valid_body (lit "job1"))). }
  split; [exact Hreach|]. exact (no_activation_outlives_its_job s Hreach).
Defined.

(** ** More on the progress text *)

Lemma with_progress_twice job first second :
  Job.with_progress (Job.with_progress job first) second
  = Job.with_progress job second.
Proof. reflexivity. Qed.

(** X20.  When the loop has gone through a non-empty list of partners,
    the record of the job is the one it started with, except for its
    progress text, which reads [Processed k/total colleges] with [k] the
    count reached: each turn overwrites the text of the turn before. *)
Theorem loop_reports_last_count {W} (world : World W)
    jobId universityId major course total collegeIds :
  forall acc n w (js : JobMap) job,
    js !! jobId = Some job ->
    collegeIds <> [] ->
    exists acc' w' js',
      exec world
        (processColleges jobId universityId major course total collegeIds acc n)
        w js
      = (Resolved (acc', (n + length collegeIds)%nat), w', js')
      /\ js' !! jobId
         = Some (Job.with_progress job
                   (lit "Processed " ++ decimal (n + length collegeIds)
                      ++ lit "/" ++ decimal total ++ lit " colleges")).
Proof.
  induction collegeIds as [|collegeId rest IH]; intros acc n w js job Hjob Hne;
    [exfalso; apply Hne; reflexivity|].
  cbn [processColleges length]. rewrite exec_bind.
  destruct (exec_processCollege world universityId major course collegeId acc w js)
    as (acc' & w1 & -> & _).
  rewrite exec_bind, exec_updateJobProgress, Hjob.
  replace (n + S (length rest))%nat with (S n + length rest)%nat by lia.
  destruct rest as [|next rest'].
  - cbn [processColleges exec length]. rewrite Nat.add_0_r.
    exists acc', w1. eexists. split; [reflexivity|]. apply lookup_insert_eq.
  - match goal with |- context [exec world _ w1 ?m] => set (js1 := m) end.
    destruct (IH acc' (S n) w1 js1
                (Job.with_progress job
                   (lit "Processed " ++ decimal (S n) ++ lit "/" ++ decimal total
                      ++ lit " colleges")))
      as (acc'' & w' & js' & -> & Hjob').
    { subst js1. apply lookup_insert_eq. }
    { discriminate. }
    exists acc'', w', js'. split; [reflexivity|].
    rewrite Hjob'. rewrite with_progress_twice. reflexivity.
Qed.

Lemma loop_reports_last_count_witness :
  let world := stateless (partners_down [ucla] [5; 7]) in
  let js : JobMap := <[lit "job1" := processing_job]> ∅ in
  js !! lit "job1" = Some processing_job
  /\ [5; 7] <> []
  /\ exists acc' w' js',
       exec world
         (processColleges (lit "job1") 1 (lit "Computer Science") (lit "CS 101")
            2 [5; 7] [] 0) tt js
       = (Resolved (acc', 2%nat), w', js')
       /\ js' !! lit "job1"
          = Some (Job.with_progress processing_job (lit "Processed 2/2 colleges")).
Proof.
  intros world js.
  assert (js !! lit "job1" = Some processing_job) as Hjob by reflexivity.
  assert ([5; 7] <> []) as Hne by discriminate.
  split; [exact Hjob|]. split; [exact Hne|].
  destruct (loop_reports_last_count world (lit "job1") 1 (lit "Computer Science")
              (lit "CS 101") 2%nat [5; 7] [] 0%nat tt js processing_job Hjob Hne)
    as (acc' & w' & js' & Hexec & Hjob').
  exists acc', w', js'. split; [exact Hexec | exact Hjob'].
Defined.
